(** * Black-Scholes pricer and profitability grid: model and properties

    A shallow embedding of [black_scholes.py] (the pricing function) and of
    the grid sweep (lines 140-153) and the historical volatility (lines
    31-32) of [app.py], followed by the properties the specification
    states about them and by further properties of the code.

    Modelling conventions.
    - A Python/NumPy float is a real number ([R]): arithmetic is exact and
      total, there is no rounding, overflow, [inf] or [nan].  The model
      says what the formulas compute; it is faithful on the domain the
      specification calls valid ([S > 0], [K > 0], [T > 0], [sigma > 0]),
      where the source divides by nonzero numbers and takes logarithms and
      square roots of positive ones.
    - [option_type] is a Python [str], here a [string], compared with [==]
      ([String.eqb]), which is case-sensitive.
    - [raise] is an explicit result: a function returns [Ok v] or
      [Raise e].  An operation with a NumPy operand never raises (it
      returns [inf] or [nan] with a warning); the two operations of line
      19 that are Python's own when the arguments are Python floats are
      modelled apart, in [black_scholes_float].
    - The dictionary returned by [black_scholes] has six fixed keys; it is
      a record with one field per key.
    - A two-dimensional NumPy array is a list of rows; writing a cell
      outside the array raises [IndexError]. *)

From Stdlib Require Import Reals Lra Lia String.
From stdpp Require Import base list.

Local Open Scope R_scope.

(** ** Exceptions *)

Inductive exception : Type :=
  | ValueError (msg : string)
  | IndexError
  | ZeroDivisionError
  | OverflowError.

Inductive result (A : Type) : Type :=
  | Ok (a : A)
  | Raise (e : exception).

Arguments Ok {A} a.
Arguments Raise {A} e.

#[global] Instance result_ret : MRet result := fun A a => Ok a.
#[global] Instance result_bind : MBind result := fun A B f m =>
  match m with
  | Ok a => f a
  | Raise e => Raise e
  end.

(** ** NumPy: elementary functions, [linspace] and [zeros] *)

Module np.

(** [np.log] is the natural logarithm. *)
Abbreviation log := ln (only parsing).
Abbreviation sqrt := R_sqrt.sqrt (only parsing).
Abbreviation exp := Rtrigo_def.exp (only parsing).
Abbreviation pi := PI (only parsing).

(** [np.arange(0, num)] as floats. *)
Definition arange (num : nat) : list R := map INR (seq 0 num).

(** [np.linspace(start, stop, num)] with [endpoint=True], after NumPy's
    implementation: [div = num - 1], [step = (stop - start) / div],
    the samples are [arange(0, num) * step + start] (computed as
    [arange / div * delta] when the step is zero, and as
    [arange * delta] when [div] is zero), and the last sample is
    overwritten with [stop] when [num > 1]. *)
Definition linspace (start stop : R) (num : nat) : list R :=
  let div := (num - 1)%nat in
  let y := arange num in
  let delta := stop - start in
  let y :=
    if decide (0 < div)%nat then
      let step := delta / INR div in
      if Req_dec_T step 0
      then map (fun v => v / INR div * delta) y
      else map (fun v => v * step) y
    else map (fun v => v * delta) y in
  let y := map (fun v => v + start) y in
  if decide (1 < num)%nat then <[(num - 1)%nat := stop]> y else y.

(** [np.zeros((n, m))]. *)
Definition zeros (n m : nat) : list (list R) := replicate n (replicate m 0).

End np.

(** ** SciPy: the standard normal distribution

  [norm.pdf] is the density [exp(-x^2/2) / sqrt(2 pi)].  [norm.cdf] is
  its integral from minus infinity; here it is given by the power series
  obtained by integrating the density's Taylor series term by term,

    cdf x = 1/2 + x / sqrt(2 pi) * sum_n (-1)^n (x^2)^n / (n! 2^n (2n+1)),

  which converges for every [x] (ratio test). *)

Module norm.

Definition pdf (x : R) : R := np.exp (- x ^ 2 / 2) / np.sqrt (2 * np.pi).

Definition cdf_den (n : nat) : R := INR (fact n) * 2 ^ n * INR (2 * n + 1).
Definition cdf_coef (n : nat) : R := (-1) ^ n / cdf_den n.

Lemma cdf_den_pos n : 0 < cdf_den n.
Proof.
  unfold cdf_den.
  repeat apply Rmult_lt_0_compat.
  - apply INR_fact_lt_0.
  - apply pow_lt; lra.
  - apply lt_0_INR; lia.
Qed.

Lemma cdf_coef_neq_0 n : cdf_coef n <> 0.
Proof.
  unfold cdf_coef, Rdiv. apply Rmult_integral_contrapositive_currified.
  - apply pow_nonzero; lra.
  - apply Rinv_neq_0_compat, Rgt_not_eq, cdf_den_pos.
Qed.

Lemma cdf_den_S n :
  cdf_den (S n) = cdf_den n * (2 * INR (S n) * INR (2 * n + 3) / INR (2 * n + 1)).
Proof.
  unfold cdf_den.
  replace (2 * S n + 1)%nat with (2 * n + 3)%nat by lia.
  rewrite fact_simpl, mult_INR. simpl pow.
  field. apply not_0_INR; lia.
Qed.

Lemma cdf_coef_ratio n :
  Rabs (cdf_coef (S n) / cdf_coef n)
  = INR (2 * n + 1) / (2 * INR (S n) * INR (2 * n + 3)).
Proof.
  assert (Hd := cdf_den_pos n).
  assert (H1 : 0 < INR (2 * n + 1)) by (apply lt_0_INR; lia).
  assert (H2 : 0 < INR (S n)) by (apply lt_0_INR; lia).
  assert (H3 : 0 < INR (2 * n + 3)) by (apply lt_0_INR; lia).
  assert (Hp : (-1) ^ n <> 0) by (apply pow_nonzero; lra).
  replace (cdf_coef (S n) / cdf_coef n)
    with (- (INR (2 * n + 1) / (2 * INR (S n) * INR (2 * n + 3)))).
  - rewrite Rabs_Ropp. apply Rabs_pos_eq. apply Rlt_le, Rdiv_lt_0_compat; [done|].
    repeat apply Rmult_lt_0_compat; lra.
  - unfold cdf_coef. rewrite cdf_den_S. simpl pow. field.
    repeat split; lra.
Qed.

Lemma cdf_coef_ratio_le n : Rabs (cdf_coef (S n) / cdf_coef n) <= / INR (S n).
Proof.
  rewrite cdf_coef_ratio.
  assert (H2 : 0 < INR (S n)) by (apply lt_0_INR; lia).
  assert (H13 : INR (2 * n + 1) <= INR (2 * n + 3)) by (apply le_INR; lia).
  assert (H1 : 0 < INR (2 * n + 1)) by (apply lt_0_INR; lia).
  apply Rmult_le_reg_r with (INR (S n)); [done|].
  rewrite Rinv_l by lra.
  apply Rmult_le_reg_r with (2 * INR (2 * n + 3)); [lra|].
  replace (INR (2 * n + 1) / (2 * INR (S n) * INR (2 * n + 3))
           * INR (S n) * (2 * INR (2 * n + 3)))
    with (INR (2 * n + 1)) by (field; lra).
  lra.
Qed.

(** A sequence squeezed between [0] and [1 / (n + 1)] tends to [0]. *)
Lemma squeeze_inv_S (U : nat -> R) :
  (forall n, 0 <= U n <= / INR (S n)) -> Un_cv U 0.
Proof.
  intros HU eps Heps.
  destruct (archimed_cor1 eps Heps) as [N [HN HN0]].
  exists N. intros n Hn.
  unfold Rdist. rewrite Rminus_0_r, Rabs_pos_eq by apply HU.
  apply Rle_lt_trans with (/ INR (S n)); [apply HU|].
  apply Rlt_trans with (/ INR N); [|done].
  apply Rinv_lt_contravar.
  - apply Rmult_lt_0_compat; apply lt_0_INR; lia.
  - apply lt_INR; lia.
Qed.

Lemma cdf_ratio_test : Un_cv (fun n => Rabs (cdf_coef (S n) / cdf_coef n)) 0.
Proof.
  apply squeeze_inv_S. intros n; split; [apply Rabs_pos | apply cdf_coef_ratio_le].
Qed.

Definition cdf_series (y : R) : { l : R | Pser cdf_coef y l } :=
  Alembert_C3 cdf_coef y cdf_coef_neq_0 cdf_ratio_test.

Definition cdf (x : R) : R :=
  1 / 2 + x / np.sqrt (2 * np.pi) * proj1_sig (cdf_series (x ^ 2)).

End norm.

(** ** black_scholes.py *)

(** The returned dictionary, one field per key. *)
Record Greeks : Type := mkGreeks {
  Price : R;
  Delta : R;
  Gamma : R;
  Theta : R;
  Vega : R;
  Rho : R
}.

Definition invalid_option_type : exception :=
  ValueError "Invalid option type. Choose 'call' or 'put'.".

Definition black_scholes (S K T r sigma : R) (option_type : string) : result Greeks :=
  let d1 := (np.log (S / K) + (r + 0.5 * sigma ^ 2) * T) / (sigma * np.sqrt T) in
  let d2 := d1 - sigma * np.sqrt T in
  '(price, delta, rho) ←
    (if String.eqb option_type "Call" then
       mret (S * norm.cdf d1 - K * np.exp (- r * T) * norm.cdf d2,
             norm.cdf d1,
             K * T * np.exp (- r * T) * norm.cdf d2)
     else if String.eqb option_type "Put" then
       mret (K * np.exp (- r * T) * norm.cdf (- d2) - S * norm.cdf (- d1),
             - norm.cdf (- d1),
             - K * T * np.exp (- r * T) * norm.cdf (- d2))
     else Raise invalid_option_type);
  let gamma := norm.pdf d1 / (S * sigma * np.sqrt T) in
  let vega := S * norm.pdf d1 * np.sqrt T in
  let theta := - S * norm.pdf d1 * sigma / (2 * np.sqrt T)
               - r * K * np.exp (- r * T)
                 * norm.cdf (if String.eqb option_type "call" then d2 else - d2) in
  mret {| Price := price; Delta := delta; Gamma := gamma;
          Theta := theta; Vega := vega; Rho := rho |}.

(** ** black_scholes.py on Python floats

    [black_scholes] gives the values the function computes.  When its
    arguments are Python floats, as on lines 61-62 of [app.py], two
    operations of line 19 have no NumPy operand and raise where NumPy
    would return [inf] or [nan]: [S / K] raises [ZeroDivisionError] when
    [K] is zero, and [sigma**2] raises [OverflowError] when the square
    does not fit a double.  Every other operation of the function has a
    NumPy operand.  Line 19 is evaluated before the option type is looked
    at, and [S / K] before [sigma**2].  In the sweep of lines 148-153
    [S] and [sigma] are NumPy scalars, and [black_scholes] is the model. *)

(** The least magnitude that rounds to infinity in binary64 (round to
    nearest): half an ulp above the largest double, [2^1024 - 2^970]. *)
Definition float_overflow : R := IZR (2 ^ 1024 - 2 ^ 970).

Definition black_scholes_float (S K T r sigma : R) (option_type : string) :
    result Greeks :=
  if Req_dec_T K 0 then Raise ZeroDivisionError
  else if Rle_dec float_overflow (sigma ^ 2) then Raise OverflowError
  else black_scholes S K T r sigma option_type.

(** ** app.py: the profitability sweep (lines 140-153) *)

(** A two-dimensional array, row by row. *)
Abbreviation grid := (list (list R)).

(** Reading [M[i, j]]. *)
Definition getitem (M : grid) (i j : nat) : option R :=
  row ← M !! i; row !! j.

(** The assignment [M[i, j] = v]; an index outside the array raises. *)
Definition setitem (M : grid) (i j : nat) (v : R) : result grid :=
  match M !! i with
  | Some row =>
      if decide (j < length row)%nat
      then Ok (<[i := <[j := v]> row]> M)
      else Raise IndexError
  | None => Raise IndexError
  end.

(** [enumerate(xs)], counting from [start]. *)
Fixpoint enumerate_from {A : Type} (start : nat) (xs : list A) : list (nat * A) :=
  match xs with
  | [] => []
  | x :: xs' => (start, x) :: enumerate_from (S start) xs'
  end.

Definition enumerate {A : Type} (xs : list A) : list (nat * A) :=
  enumerate_from 0 xs.

(** A [for] loop over [xs] whose body updates the state [st] or raises. *)
Fixpoint for_each {A St : Type} (xs : list A) (body : A -> St -> result St)
    (st : St) : result St :=
  match xs with
  | [] => Ok st
  | x :: xs' => st' ← body x st; for_each xs' body st'
  end.

(** Lines 140-141. *)
Definition stock_prices (S_range : R * R) : list R :=
  np.linspace S_range.1 S_range.2 50.

Definition volatilities (sigma_range : R * R) : list R :=
  np.linspace sigma_range.1 sigma_range.2 50.

Section Sweep.

(** The module-level values the loop reads. *)
Variables K T r call_purchase_price put_purchase_price : R.

(** Lines 150-153: the body of the inner loop, on the pair of matrices
    [(call_profitability, put_profitability)]. *)
Definition sweep_cell (i : nat) (S : R) (j : nat) (sigma : R)
    (st : grid * grid) : result (grid * grid) :=
  let '(call_profitability, put_profitability) := st in
  call_results ← black_scholes S K T r sigma "Call";
  let call_price := Price call_results in
  put_results ← black_scholes S K T r sigma "Put";
  let put_price := Price put_results in
  call_profitability ← setitem call_profitability i j (call_price - call_purchase_price);
  put_profitability ← setitem put_profitability i j (put_price - put_purchase_price);
  mret (call_profitability, put_profitability).

(** Lines 149-153: the inner loop, for one spot price. *)
Definition sweep_row (volatilities : list R) (i : nat) (S : R)
    (st : grid * grid) : result (grid * grid) :=
  for_each (enumerate volatilities)
    (fun '(j, sigma) => sweep_cell i S j sigma) st.

(** Lines 144-153 over given axes: both matrices start as zeros and the
    nested loop fills them.  [iS] is the pair [(i, S)] of the outer loop. *)
Definition sweep (stock_prices volatilities : list R) : result (grid * grid) :=
  let call_profitability := np.zeros (length stock_prices) (length volatilities) in
  let put_profitability := np.zeros (length stock_prices) (length volatilities) in
  for_each (enumerate stock_prices)
    (fun iS => sweep_row volatilities iS.1 iS.2)
    (call_profitability, put_profitability).

(** Lines 140-153. *)
Definition profitability (S_range sigma_range : R * R) : result (grid * grid) :=
  sweep (stock_prices S_range) (volatilities sigma_range).

End Sweep.

(** ** app.py: the historical volatility (lines 31-32) *)

(** pandas: a float [Series] and the operations the source applies to the
    [Close] column.  A missing value (NaN) is [None]. *)
Module pd.

Abbreviation Series := (list (option R)).

(** [s.shift(1)]: every value moves down one row; the first row becomes
    NaN and the last value is dropped. *)
Definition shift (s : Series) : Series := take (length s) (None :: s).

(** [a / b], row by row; NaN where either operand is NaN. *)
Definition div (a b : Series) : Series :=
  zip_with (fun x y => x ← x; y ← y; Some (x / y)) a b.

(** [np.log(s)], row by row. *)
Definition log (s : Series) : Series := map (fmap ln) s.

(** The values that are not NaN. *)
Definition dropna (s : Series) : list R := omap (fun x : option R => x) s.

Definition mean (xs : list R) : R := foldr Rplus 0 xs / INR (length xs).

(** [np.std(s)]: the standard deviation with [ddof = 0] of the values
    that are not NaN. *)
Definition std (s : Series) : R :=
  let xs := dropna s in
  let m := mean xs in
  sqrt (mean (map (fun x => (x - m) ^ 2) xs)).

End pd.

(** Line 31, on the [Close] column of the price history. *)
Definition daily_returns (close : pd.Series) : pd.Series :=
  pd.log (pd.div close (pd.shift close)).

(** Line 32: the annualized volatility. *)
Definition volatility (close : pd.Series) : R :=
  pd.std (daily_returns close) * np.sqrt 252.

(** ** The closed form as the specification writes it *)

Module Spec.

(** The discount factor [e^(-rT)]. *)
Definition discount (r T : R) : R := exp (- (r * T)).

Section Formulas.

Variables S K T r sigma : R.

Definition d1 : R := (ln (S / K) + (r + 0.5 * sigma²) * T) / (sigma * sqrt T).
Definition d2 : R := d1 - sigma * sqrt T.

Definition call_price : R := S * norm.cdf d1 - K * discount r T * norm.cdf d2.
Definition call_delta : R := norm.cdf d1.
Definition call_rho : R := K * T * discount r T * norm.cdf d2.
Definition call_theta : R :=
  - (S * norm.pdf d1 * sigma) / (2 * sqrt T) - r * K * discount r T * norm.cdf d2.

Definition put_price : R := K * discount r T * norm.cdf (- d2) - S * norm.cdf (- d1).
Definition put_delta : R := - norm.cdf (- d1).
Definition put_rho : R := - (K * T * discount r T * norm.cdf (- d2)).
Definition put_theta : R :=
  - (S * norm.pdf d1 * sigma) / (2 * sqrt T) - r * K * discount r T * norm.cdf (- d2).

Definition gamma : R := norm.pdf d1 / (S * sigma * sqrt T).
Definition vega : R := S * norm.pdf d1 * sqrt T.

(** A grid cell: the price less what the option was bought for. *)
Definition call_profit (purchase_price : R) : R := call_price - purchase_price.
Definition put_profit (purchase_price : R) : R := put_price - purchase_price.

End Formulas.

(** The evenly spaced axis of [n] points from [lo] to [hi]: [n] entries,
    the first [lo], the last [hi], consecutive entries one step
    [(hi - lo) / (n - 1)] apart, strictly ascending. *)
Definition even_axis (lo hi : R) (n : nat) (axis : list R) : Prop :=
  length axis = n
  /\ head axis = Some lo
  /\ last axis = Some hi
  /\ (forall i x y, axis !! i = Some x -> axis !! (i + 1)%nat = Some y ->
        y - x = (hi - lo) / INR (n - 1))
  /\ (forall i j x y, (i < j)%nat -> axis !! i = Some x -> axis !! j = Some y ->
        x < y).

End Spec.

(** ** Auxiliary notions for the proofs *)

(** The absolute value of the [n]-th term of the series of [norm.cdf]
    at [y = x^2]. *)
Definition cdf_term (y : R) (n : nat) : R := y ^ n / norm.cdf_den n.

(** [M] is an [n] by [m] array. *)
Definition dims (n m : nat) (M : grid) : Prop :=
  length M = n /\ forall i row, M !! i = Some row -> length row = m.

(** * Properties *)

(** ** The model on small inputs *)

Example enumerate_three (a b c : R) :
  enumerate [a; b; c] = [(0%nat, a); (1%nat, b); (2%nat, c)].
Proof. reflexivity. Qed.

Example zeros_2_3 : np.zeros 2 3 = [[0; 0; 0]; [0; 0; 0]].
Proof. reflexivity. Qed.

Example setitem_inside : setitem (np.zeros 2 3) 1 2 7 = Ok [[0; 0; 0]; [0; 0; 7]].
Proof. reflexivity. Qed.

Example setitem_outside_rows : setitem (np.zeros 2 3) 2 0 7 = Raise IndexError.
Proof. reflexivity. Qed.

Example setitem_outside_columns : setitem (np.zeros 2 3) 0 3 7 = Raise IndexError.
Proof. reflexivity. Qed.

Example getitem_after_setitem :
  (M ← setitem (np.zeros 2 3) 1 2 7; mret (getitem M 1 2)) = Ok (Some 7).
Proof. reflexivity. Qed.

Example black_scholes_rejects_straddle :
  black_scholes 100 100 1 0.05 0.2 "Straddle" = Raise invalid_option_type.
Proof. reflexivity. Qed.

(** ** The normal distribution function *)

Lemma sqrt_2PI_pos : 0 < sqrt (2 * PI).
Proof. apply sqrt_lt_R0. pose proof PI_RGT_0. lra. Qed.

(** Symmetry: [cdf (-x) = 1 - cdf x]. *)
Lemma norm_cdf_neg (x : R) : norm.cdf (- x) = 1 - norm.cdf x.
Proof.
  unfold norm.cdf.
  replace ((- x) ^ 2) with (x ^ 2) by ring.
  field. apply Rgt_not_eq, sqrt_2PI_pos.
Qed.

Lemma norm_cdf_0 : norm.cdf 0 = 1 / 2.
Proof. unfold norm.cdf. unfold Rdiv at 2. rewrite !Rmult_0_l. lra. Qed.

Lemma cdf_den_ge n : INR (S n) <= norm.cdf_den n.
Proof.
  unfold norm.cdf_den.
  assert (H1 : 1 <= INR (fact n)).
  { change 1 with (INR 1). apply le_INR. pose proof (fact_neq_0 n). lia. }
  assert (H2 : 1 <= 2 ^ n) by (apply pow_R1_Rle; lra).
  assert (H3 : INR (S n) <= INR (2 * n + 1)) by (apply le_INR; lia).
  assert (H4 : 0 < INR (S n)) by (apply lt_0_INR; lia).
  assert (H5 : 1 <= INR (fact n) * 2 ^ n) by nra.
  nra.
Qed.

Lemma cdf_den_mono n : norm.cdf_den n <= norm.cdf_den (S n).
Proof.
  rewrite norm.cdf_den_S.
  assert (Hd := norm.cdf_den_pos n).
  assert (H1 : 0 < INR (2 * n + 1)) by (apply lt_0_INR; lia).
  assert (H2 : 1 <= INR (S n)) by (change 1 with (INR 1); apply le_INR; lia).
  assert (H3 : INR (2 * n + 1) <= INR (2 * n + 3)) by (apply le_INR; lia).
  rewrite <- (Rmult_1_r (norm.cdf_den n)) at 1.
  apply Rmult_le_compat_l; [lra|].
  apply Rmult_le_reg_r with (INR (2 * n + 1)); [done|].
  replace (2 * INR (S n) * INR (2 * n + 3) / INR (2 * n + 1) * INR (2 * n + 1))
    with (2 * INR (S n) * INR (2 * n + 3)) by (field; lra).
  nra.
Qed.

Lemma cdf_term_bounds (y : R) (n : nat) :
  0 <= y <= 1 -> 0 <= cdf_term y n <= / INR (S n).
Proof.
  intros [Hy0 Hy1]. unfold cdf_term.
  assert (Hd := norm.cdf_den_pos n). assert (Hg := cdf_den_ge n).
  assert (Hn : 0 < INR (S n)) by (apply lt_0_INR; lia).
  assert (Hp0 : 0 <= y ^ n) by (by apply pow_le).
  assert (Hp1 : y ^ n <= 1).
  { rewrite <- (pow1 n). by apply pow_incr. }
  split.
  - apply Rmult_le_pos; [done|]. apply Rlt_le, Rinv_0_lt_compat, Hd.
  - apply Rle_trans with (1 * / norm.cdf_den n).
    + apply Rmult_le_compat_r; [|done]. apply Rlt_le, Rinv_0_lt_compat, Hd.
    + rewrite Rmult_1_l. by apply Rinv_le_contravar.
Qed.

Lemma cdf_term_decreasing (y : R) : 0 <= y <= 1 -> Un_decreasing (cdf_term y).
Proof.
  intros [Hy0 Hy1] n. unfold cdf_term.
  assert (Hd := norm.cdf_den_pos n). assert (HdS := norm.cdf_den_pos (S n)).
  assert (Hm := cdf_den_mono n).
  assert (Hp0 : 0 <= y ^ n) by (by apply pow_le).
  apply Rle_trans with (y ^ n / norm.cdf_den (S n)).
  - apply Rmult_le_compat_r; [apply Rlt_le, Rinv_0_lt_compat, HdS|].
    simpl. rewrite <- (Rmult_1_l (y ^ n)) at 2. apply Rmult_le_compat_r; done.
  - apply Rmult_le_compat_l; [done|]. by apply Rinv_le_contravar.
Qed.

(** On [[0, 1]] the alternating series is at least its second partial
    sum [1 - y / 6]. *)
Lemma cdf_series_lower (y : R) :
  0 <= y <= 1 -> 5 / 6 <= proj1_sig (norm.cdf_series y).
Proof.
  intros Hy. destruct (norm.cdf_series y) as [l Hl]; simpl.
  assert (Hcv : Un_cv (fun N => sum_f_R0 (tg_alt (cdf_term y)) N) l).
  { intros eps Heps. destruct (Hl eps Heps) as [N HN]. exists N. intros n Hn.
    specialize (HN n Hn).
    erewrite sum_eq; [exact HN|].
    intros i _. unfold tg_alt, cdf_term, norm.cdf_coef. simpl. field.
    apply Rgt_not_eq, norm.cdf_den_pos. }
  destruct (alternated_series_ineq (cdf_term y) l 0
              (cdf_term_decreasing y Hy)
              (norm.squeeze_inv_S _ (fun n => cdf_term_bounds y n Hy)) Hcv) as [Hlo _].
  eapply Rle_trans; [|exact Hlo].
  simpl. unfold tg_alt, cdf_term, norm.cdf_den. simpl. lra.
Qed.

Lemma norm_cdf_gt_half (x : R) : 0 < x <= 1 -> 1 / 2 < norm.cdf x.
Proof.
  intros [Hx0 Hx1]. unfold norm.cdf.
  assert (Hs := sqrt_2PI_pos).
  assert (Hy : 0 <= x ^ 2 <= 1) by nra.
  assert (Hl := cdf_series_lower (x ^ 2) Hy).
  assert (0 < x / sqrt (2 * PI)) by (by apply Rdiv_lt_0_compat).
  nra.
Qed.

(** The distribution function separates [-x] from [x] near the origin. *)
Lemma norm_cdf_neg_lt (x : R) : 0 < x <= 1 -> norm.cdf (- x) < norm.cdf x.
Proof. intros Hx. rewrite norm_cdf_neg. pose proof (norm_cdf_gt_half x Hx). lra. Qed.

(** ** The pricing function *)

(** The source's intermediate quantities are the specification's. *)
Lemma source_d1 (S K T r sigma : R) :
  (ln (S / K) + (r + 0.5 * sigma ^ 2) * T) / (sigma * sqrt T)
  = Spec.d1 S K T r sigma.
Proof. unfold Spec.d1, Rsqr. do 3 f_equal. ring. Qed.

Lemma source_discount (r T : R) : exp (- r * T) = Spec.discount r T.
Proof. unfold Spec.discount. f_equal. ring. Qed.

(** Unfolds a call of [black_scholes] on a literal option type and
    restates its body with the specification's [d1], [d2] and discount. *)
Ltac run_black_scholes :=
  unfold black_scholes; cbn [String.eqb Ascii.eqb Bool.eqb mbind mret result_bind result_ret];
  rewrite ?source_d1, ?source_discount;
  repeat match goal with
  | |- context [Spec.d1 ?S ?K ?T ?r ?sigma - ?sigma * sqrt ?T] =>
      change (Spec.d1 S K T r sigma - sigma * sqrt T) with (Spec.d2 S K T r sigma)
  end.

(** The price [black_scholes] returns for each option type. *)
Lemma source_call_price (S K T r sigma : R) :
  exists g, black_scholes S K T r sigma "Call" = Ok g
    /\ Price g = Spec.call_price S K T r sigma.
Proof. run_black_scholes. eexists; split; reflexivity. Qed.

Lemma source_put_price (S K T r sigma : R) :
  exists g, black_scholes S K T r sigma "Put" = Ok g
    /\ Price g = Spec.put_price S K T r sigma.
Proof. run_black_scholes. eexists; split; reflexivity. Qed.

(** C1. For valid inputs and option type "Call", [black_scholes] returns a
    result whose price is [S Phi(d1) - K e^(-rT) Phi(d2)], whose delta is
    [Phi(d1)] and whose rho is [K T e^(-rT) Phi(d2)]. *)
Theorem black_scholes_call_price_delta_rho (S K T r sigma : R) :
  0 < S -> 0 < K -> 0 < T -> 0 < sigma ->
  exists g, black_scholes S K T r sigma "Call" = Ok g
    /\ Price g = Spec.call_price S K T r sigma
    /\ Delta g = Spec.call_delta S K T r sigma
    /\ Rho g = Spec.call_rho S K T r sigma.
Proof.
  intros _ _ _ _. run_black_scholes.
  eexists; split; [reflexivity|]. cbn [Price Delta Rho].
  unfold Spec.call_price, Spec.call_delta, Spec.call_rho. done.
Qed.

Lemma black_scholes_call_price_delta_rho_witness :
  exists g, black_scholes 100 100 1 0.05 0.2 "Call" = Ok g
    /\ Price g = Spec.call_price 100 100 1 0.05 0.2
    /\ Delta g = Spec.call_delta 100 100 1 0.05 0.2
    /\ Rho g = Spec.call_rho 100 100 1 0.05 0.2.
Proof. apply (black_scholes_call_price_delta_rho 100 100 1 0.05 0.2); lra. Defined.

(** C2. For valid inputs and option type "Put", [black_scholes] returns a
    result whose price is [K e^(-rT) Phi(-d2) - S Phi(-d1)], whose delta is
    [-Phi(-d1)] and whose rho is [-K T e^(-rT) Phi(-d2)]. *)
Theorem black_scholes_put_price_delta_rho (S K T r sigma : R) :
  0 < S -> 0 < K -> 0 < T -> 0 < sigma ->
  exists g, black_scholes S K T r sigma "Put" = Ok g
    /\ Price g = Spec.put_price S K T r sigma
    /\ Delta g = Spec.put_delta S K T r sigma
    /\ Rho g = Spec.put_rho S K T r sigma.
Proof.
  intros _ _ _ _. run_black_scholes.
  eexists; split; [reflexivity|]. cbn [Price Delta Rho].
  unfold Spec.put_price, Spec.put_delta, Spec.put_rho.
  repeat split. ring.
Qed.

Lemma black_scholes_put_price_delta_rho_witness :
  exists g, black_scholes 100 100 1 0.05 0.2 "Put" = Ok g
    /\ Price g = Spec.put_price 100 100 1 0.05 0.2
    /\ Delta g = Spec.put_delta 100 100 1 0.05 0.2
    /\ Rho g = Spec.put_rho 100 100 1 0.05 0.2.
Proof. apply (black_scholes_put_price_delta_rho 100 100 1 0.05 0.2); lra. Defined.

(** What the source computes as theta for "Call": the comparison on line
    36 is with the lowercase "call", which "Call" does not equal, so the
    [else] operand [-d2] is taken. *)
Lemma source_call_theta (S K T r sigma : R) :
  exists g, black_scholes S K T r sigma "Call" = Ok g
    /\ Theta g = Spec.put_theta S K T r sigma.
Proof.
  run_black_scholes.
  eexists; split; [reflexivity|]. cbn [Theta].
  unfold Spec.put_theta. f_equal. unfold Rdiv. ring.
Qed.

(** C3, at S = 100, K = 100, T = 1, r = 0.05, sigma = 0.2 and option type
    "Call": the returned theta is not the specification's Call theta
    [-S phi(d1) sigma / (2 sqrt T) - r K e^(-rT) Phi(d2)]; it is the Put
    expression, with [Phi(-d2)]. *)
Theorem black_scholes_call_theta_diverges :
  exists g, black_scholes 100 100 1 0.05 0.2 "Call" = Ok g
    /\ Theta g <> Spec.call_theta 100 100 1 0.05 0.2
    /\ Theta g = Spec.put_theta 100 100 1 0.05 0.2.
Proof.
  destruct (source_call_theta 100 100 1 0.05 0.2) as [g [Hg Hth]].
  exists g. split; [done|]. split; [|done].
  rewrite Hth. unfold Spec.put_theta, Spec.call_theta.
  assert (Hd2 : Spec.d2 100 100 1 0.05 0.2 = 0.15).
  { unfold Spec.d2, Spec.d1, Rsqr.
    replace (100 / 100) with 1 by lra. rewrite ln_1, sqrt_1. lra. }
  rewrite Hd2.
  set (x := 0.15).
  assert (Hlt : norm.cdf (- x) < norm.cdf x) by (apply norm_cdf_neg_lt; unfold x; lra).
  assert (Hdisc : 0 < Spec.discount 0.05 1) by apply exp_pos.
  intros Heq.
  assert (Hz : 0.05 * 100 * Spec.discount 0.05 1 * (norm.cdf x - norm.cdf (- x)) = 0)
    by lra.
  assert (0 < 0.05 * 100 * Spec.discount 0.05 1 * (norm.cdf x - norm.cdf (- x))).
  { apply Rmult_lt_0_compat; [|lra]. apply Rmult_lt_0_compat; [lra|done]. }
  lra.
Qed.

(** C4. For valid inputs and option type "Put", the returned theta is
    [-S phi(d1) sigma / (2 sqrt T) - r K e^(-rT) Phi(-d2)]. *)
Theorem black_scholes_put_theta (S K T r sigma : R) :
  0 < S -> 0 < K -> 0 < T -> 0 < sigma ->
  exists g, black_scholes S K T r sigma "Put" = Ok g
    /\ Theta g = Spec.put_theta S K T r sigma.
Proof.
  intros _ _ _ _. run_black_scholes.
  eexists; split; [reflexivity|]. cbn [Theta].
  unfold Spec.put_theta. f_equal. unfold Rdiv. ring.
Qed.

Lemma black_scholes_put_theta_witness :
  exists g, black_scholes 100 100 1 0.05 0.2 "Put" = Ok g
    /\ Theta g = Spec.put_theta 100 100 1 0.05 0.2.
Proof. apply (black_scholes_put_theta 100 100 1 0.05 0.2); lra. Defined.

(** C5. Put-call parity: for valid inputs the Call price minus the Put
    price is [S - K e^(-rT)]; exactly so over the reals, hence within
    the tolerance [1e-6]. *)
Theorem put_call_parity (S K T r sigma : R) :
  0 < S -> 0 < K -> 0 < T -> 0 < sigma ->
  exists c p, black_scholes S K T r sigma "Call" = Ok c
    /\ black_scholes S K T r sigma "Put" = Ok p
    /\ Price c - Price p = S - K * exp (- (r * T))
    /\ Rabs ((Price c - Price p) - (S - K * exp (- (r * T)))) <= 1 / 10 ^ 6.
Proof.
  intros _ _ _ _.
  assert (Hpar : Spec.call_price S K T r sigma - Spec.put_price S K T r sigma
                 = S - K * exp (- (r * T))).
  { unfold Spec.call_price, Spec.put_price, Spec.discount.
    rewrite !norm_cdf_neg. ring. }
  run_black_scholes.
  do 2 eexists. split; [reflexivity|]. split; [reflexivity|]. cbn [Price].
  fold (Spec.call_price S K T r sigma). fold (Spec.put_price S K T r sigma).
  rewrite Hpar. split; [done|].
  rewrite Rminus_diag, Rabs_R0. lra.
Qed.

Lemma put_call_parity_witness :
  exists c p, black_scholes 100 100 1 0.05 0.2 "Call" = Ok c
    /\ black_scholes 100 100 1 0.05 0.2 "Put" = Ok p
    /\ Price c - Price p = 100 - 100 * exp (- (0.05 * 1))
    /\ Rabs ((Price c - Price p) - (100 - 100 * exp (- (0.05 * 1)))) <= 1 / 10 ^ 6.
Proof. apply (put_call_parity 100 100 1 0.05 0.2); lra. Defined.

(** C6. For valid inputs the gamma and the vega returned for "Call" are
    those returned for "Put", namely [phi(d1) / (S sigma sqrt T)] and
    [S phi(d1) sqrt T]. *)
Theorem gamma_vega_shared (S K T r sigma : R) :
  0 < S -> 0 < K -> 0 < T -> 0 < sigma ->
  exists c p, black_scholes S K T r sigma "Call" = Ok c
    /\ black_scholes S K T r sigma "Put" = Ok p
    /\ Gamma c = Gamma p /\ Vega c = Vega p
    /\ Gamma c = Spec.gamma S K T r sigma
    /\ Vega c = Spec.vega S K T r sigma.
Proof.
  intros _ _ _ _. run_black_scholes.
  do 2 eexists. split; [reflexivity|]. split; [reflexivity|]. done.
Qed.

Lemma gamma_vega_shared_witness :
  exists c p, black_scholes 100 100 1 0.05 0.2 "Call" = Ok c
    /\ black_scholes 100 100 1 0.05 0.2 "Put" = Ok p
    /\ Gamma c = Gamma p /\ Vega c = Vega p
    /\ Gamma c = Spec.gamma 100 100 1 0.05 0.2
    /\ Vega c = Spec.vega 100 100 1 0.05 0.2.
Proof. apply (gamma_vega_shared 100 100 1 0.05 0.2); lra. Defined.

(** The option types the function accepts. *)
Lemma black_scholes_dispatch (S K T r sigma : R) (option_type : string) :
  (option_type = "Call"%string \/ option_type = "Put"%string ->
     exists g, black_scholes S K T r sigma option_type = Ok g)
  /\ (option_type <> "Call"%string -> option_type <> "Put"%string ->
     black_scholes S K T r sigma option_type = Raise invalid_option_type).
Proof.
  split.
  - intros [-> | ->]; unfold black_scholes; cbn [String.eqb Ascii.eqb Bool.eqb];
      eexists; reflexivity.
  - intros HC HP. unfold black_scholes.
    destruct (String.eqb_spec option_type "Call") as [|_]; [done|].
    destruct (String.eqb_spec option_type "Put") as [|_]; [done|].
    reflexivity.
Qed.

(** The arithmetic of line 19 on Python floats. *)
Lemma float_overflow_gt_1 : 1 < float_overflow.
Proof. unfold float_overflow. apply IZR_lt. reflexivity. Qed.

Lemma black_scholes_float_zero_strike (S T r sigma : R) (option_type : string) :
  black_scholes_float S 0 T r sigma option_type = Raise ZeroDivisionError.
Proof.
  unfold black_scholes_float. destruct (Req_dec_T 0 0) as [_|Hne]; [reflexivity|].
  by destruct Hne.
Qed.

Lemma black_scholes_float_overflow (S K T r sigma : R) (option_type : string) :
  K <> 0 -> float_overflow <= sigma ^ 2 ->
  black_scholes_float S K T r sigma option_type = Raise OverflowError.
Proof.
  intros HK Hov. unfold black_scholes_float.
  destruct (Req_dec_T K 0) as [HK0|_]; [done|].
  destruct (Rle_dec float_overflow (sigma ^ 2)) as [_|Hn]; [reflexivity|done].
Qed.

(** When line 19 raises nothing, the call is the one of [black_scholes]. *)
Lemma black_scholes_float_finite (S K T r sigma : R) (option_type : string) :
  K <> 0 -> sigma ^ 2 < float_overflow ->
  black_scholes_float S K T r sigma option_type
  = black_scholes S K T r sigma option_type.
Proof.
  intros HK Hfin. unfold black_scholes_float.
  destruct (Req_dec_T K 0) as [HK0|_]; [done|].
  destruct (Rle_dec float_overflow (sigma ^ 2)) as [Hov|_]; [lra|reflexivity].
Qed.

Example black_scholes_float_point :
  black_scholes_float 100 100 1 0.05 0.2 "Call"
  = black_scholes 100 100 1 0.05 0.2 "Call".
Proof.
  apply black_scholes_float_finite; [lra|].
  pose proof float_overflow_gt_1. lra.
Qed.

(** C7, as stated, fails: with positive inputs and option type "Call",
    a volatility of [1e200] makes [sigma**2] overflow, and the call
    raises [OverflowError] instead of returning a result. *)
Lemma black_scholes_float_raises_on_call :
  0 < 100 /\ 0 < 1 /\ 0 < IZR (10 ^ 200)
  /\ black_scholes_float 100 100 1 0.05 (IZR (10 ^ 200)) "Call" = Raise OverflowError
  /\ ~ (exists g, black_scholes_float 100 100 1 0.05 (IZR (10 ^ 200)) "Call" = Ok g).
Proof.
  assert (Hov : black_scholes_float 100 100 1 0.05 (IZR (10 ^ 200)) "Call"
                = Raise OverflowError).
  { apply black_scholes_float_overflow; [lra|].
    unfold float_overflow. rewrite pow_IZR. apply IZR_le.
    apply Z.leb_le. vm_compute. reflexivity. }
  split; [lra|]. split; [lra|]. split; [apply IZR_lt; reflexivity|].
  split; [exact Hov|]. intros [g Hg]. rewrite Hov in Hg. discriminate.
Qed.

(** C7, amended. On Python floats with a strike that is not zero and a
    volatility whose square fits a double, [black_scholes] raises exactly
    when the option type is neither "Call" nor "Put", the exception then
    being the [ValueError] of line 31; for "Call" and for "Put" it
    returns the result of the closed form. *)
Theorem black_scholes_float_raises_iff_invalid_type (S K T r sigma : R)
    (option_type : string) :
  K <> 0 -> sigma ^ 2 < float_overflow ->
  ((exists e, black_scholes_float S K T r sigma option_type = Raise e)
     <-> option_type <> "Call"%string /\ option_type <> "Put"%string)
  /\ (forall e, black_scholes_float S K T r sigma option_type = Raise e ->
        e = ValueError "Invalid option type. Choose 'call' or 'put'.")
  /\ (option_type = "Call"%string \/ option_type = "Put"%string ->
        exists g, black_scholes_float S K T r sigma option_type = Ok g
                  /\ black_scholes S K T r sigma option_type = Ok g).
Proof.
  intros HK Hfin.
  rewrite (black_scholes_float_finite S K T r sigma option_type HK Hfin).
  destruct (black_scholes_dispatch S K T r sigma option_type) as [Hok Hraise].
  assert (Hcases : (option_type = "Call"%string \/ option_type = "Put"%string)
                   \/ (option_type <> "Call"%string /\ option_type <> "Put"%string)).
  { destruct (String.eqb_spec option_type "Call"); [by left; left|].
    destruct (String.eqb_spec option_type "Put"); [by left; right|]. by right. }
  split; [split|split].
  - intros [e He]. destruct Hcases as [Hv | Hi]; [|done].
    destruct (Hok Hv) as [g Hg]. congruence.
  - intros [HC HP]. eexists. by apply Hraise.
  - intros e He. destruct Hcases as [Hv | [HC HP]].
    + destruct (Hok Hv) as [g Hg]. congruence.
    + rewrite (Hraise HC HP) in He. by injection He as <-.
  - intros Hv. destruct (Hok Hv) as [g Hg]. by exists g.
Qed.

Lemma black_scholes_float_raises_iff_invalid_type_witness :
  ((exists e, black_scholes_float 100 100 1 0.05 0.2 "Straddle" = Raise e)
     <-> "Straddle"%string <> "Call"%string /\ "Straddle"%string <> "Put"%string)
  /\ (forall e, black_scholes_float 100 100 1 0.05 0.2 "Straddle" = Raise e ->
        e = ValueError "Invalid option type. Choose 'call' or 'put'.")
  /\ ("Straddle"%string = "Call"%string \/ "Straddle"%string = "Put"%string ->
        exists g, black_scholes_float 100 100 1 0.05 0.2 "Straddle" = Ok g
                  /\ black_scholes 100 100 1 0.05 0.2 "Straddle" = Ok g).
Proof.
  apply (black_scholes_float_raises_iff_invalid_type 100 100 1 0.05 0.2 "Straddle").
  - lra.
  - pose proof float_overflow_gt_1. lra.
Defined.

(** C10. The option-type check is case-sensitive: on a valid numeric
    input, the lowercase "call" and "put" the docstring advertises both
    raise the invalid-option-type error. *)
Theorem black_scholes_lowercase_raises :
  exists S K T r sigma,
    0 < S /\ 0 < K /\ 0 < T /\ 0 < sigma
    /\ black_scholes S K T r sigma "call"
       = Raise (ValueError "Invalid option type. Choose 'call' or 'put'.")
    /\ black_scholes S K T r sigma "put"
       = Raise (ValueError "Invalid option type. Choose 'call' or 'put'.").
Proof.
  exists 100, 100, 1, 0.05, 0.2.
  repeat split; try lra; reflexivity.
Qed.

(** ** The sweep *)

Lemma zeros_dims n m : dims n m (np.zeros n m).
Proof.
  unfold np.zeros. split; [apply length_replicate|].
  intros i row [-> _]%lookup_replicate. apply length_replicate.
Qed.

Lemma setitem_ok n m M i j v :
  dims n m M -> (i < n)%nat -> (j < m)%nat ->
  exists M', setitem M i j v = Ok M'
    /\ dims n m M'
    /\ getitem M' i j = Some v
    /\ (forall i' j', i' <> i \/ j' <> j -> getitem M' i' j' = getitem M i' j').
Proof.
  intros [Hn Hm] Hi Hj.
  destruct (lookup_lt_is_Some_2 M i) as [row Hrow]; [lia|].
  assert (Hlen := Hm _ _ Hrow).
  unfold setitem. rewrite Hrow. rewrite decide_True by lia.
  eexists. split; [reflexivity|]. split; [|split].
  - split; [by rewrite length_insert|].
    intros i' row'. destruct (decide (i' = i)) as [->|Hne].
    + rewrite list_lookup_insert_eq by lia. intros [= <-]. by rewrite length_insert.
    + rewrite list_lookup_insert_ne by done. apply Hm.
  - unfold getitem. rewrite list_lookup_insert_eq by lia. simpl.
    apply list_lookup_insert_eq. lia.
  - intros i' j' Hne. unfold getitem.
    destruct (decide (i' = i)) as [->|Hi'].
    + rewrite list_lookup_insert_eq, Hrow by lia. simpl.
      apply list_lookup_insert_ne. destruct Hne; congruence.
    + by rewrite list_lookup_insert_ne.
Qed.

Section SweepProofs.

Variables K T r call_purchase_price put_purchase_price : R.

(** The values the sweep stores for spot [S] and volatility [sigma]. *)
Local Abbreviation call_profit S sigma :=
  (Spec.call_profit S K T r sigma call_purchase_price).
Local Abbreviation put_profit S sigma :=
  (Spec.put_profit S K T r sigma put_purchase_price).

Lemma sweep_cell_eq i S j sigma cp pp :
  sweep_cell K T r call_purchase_price put_purchase_price i S j sigma (cp, pp)
  = (cp' ← setitem cp i j (call_profit S sigma);
     pp' ← setitem pp i j (put_profit S sigma);
     mret (cp', pp')).
Proof. unfold sweep_cell. run_black_scholes. reflexivity. Qed.

(** The inner loop from column [k] on: it returns, keeps the shapes,
    fills row [i] at the columns it visits and leaves alone the other
    rows and the columns before [k]. *)
Lemma sweep_row_from n m i S vs : forall k cp pp,
  dims n m cp -> dims n m pp -> (i < n)%nat -> (k + length vs <= m)%nat ->
  exists cp' pp',
    for_each (enumerate_from k vs)
      (fun '(j, sigma) =>
         sweep_cell K T r call_purchase_price put_purchase_price i S j sigma)
      (cp, pp) = Ok (cp', pp')
    /\ dims n m cp' /\ dims n m pp'
    /\ (forall j sigma, vs !! j = Some sigma ->
          getitem cp' i (k + j) = Some (call_profit S sigma)
          /\ getitem pp' i (k + j) = Some (put_profit S sigma))
    /\ (forall i' j', i' <> i \/ (j' < k)%nat ->
          getitem cp' i' j' = getitem cp i' j'
          /\ getitem pp' i' j' = getitem pp i' j').
Proof.
  induction vs as [|sigma vs IH]; intros k cp pp Hcp Hpp Hi Hk.
  - exists cp, pp. split; [done|]. split; [done|]. split; [done|]. split.
    + intros j sigma Hj. by rewrite lookup_nil in Hj.
    + done.
  - simpl in Hk. cbn [enumerate_from for_each]. rewrite sweep_cell_eq.
    destruct (setitem_ok n m cp i k (call_profit S sigma) Hcp Hi ltac:(lia))
      as (cp1 & -> & Hcp1 & Hc_new & Hc_old).
    destruct (setitem_ok n m pp i k (put_profit S sigma) Hpp Hi ltac:(lia))
      as (pp1 & -> & Hpp1 & Hp_new & Hp_old).
    cbn [mbind mret result_bind result_ret].
    destruct (IH (Datatypes.S k) cp1 pp1 Hcp1 Hpp1 Hi ltac:(lia))
      as (cp' & pp' & -> & Hcp' & Hpp' & Hnew & Hold).
    exists cp', pp'. split; [done|]. split; [done|]. split; [done|]. split.
    + intros [|j] sigma' Hj.
      * injection Hj as <-. rewrite Nat.add_0_r.
        destruct (Hold i k) as [-> ->]; [right; lia|]. done.
      * replace (k + Datatypes.S j)%nat with (Datatypes.S k + j)%nat by lia. by apply Hnew.
    + intros i' j' Hne.
      destruct (Hold i' j') as [-> ->]; [destruct Hne; [by left|right; lia]|].
      split; [apply Hc_old | apply Hp_old]; destruct Hne; (by left) || (right; lia).
Qed.


(** The inner loop as the source runs it, over the whole volatility axis. *)
Lemma sweep_row_cells n i S vs cp pp :
  dims n (length vs) cp -> dims n (length vs) pp -> (i < n)%nat ->
  exists cp' pp',
    sweep_row K T r call_purchase_price put_purchase_price vs i S (cp, pp)
    = Ok (cp', pp')
    /\ dims n (length vs) cp' /\ dims n (length vs) pp'
    /\ (forall j sigma, vs !! j = Some sigma ->
          getitem cp' i j = Some (call_profit S sigma)
          /\ getitem pp' i j = Some (put_profit S sigma))
    /\ (forall i' j', i' <> i ->
          getitem cp' i' j' = getitem cp i' j'
          /\ getitem pp' i' j' = getitem pp i' j').
Proof.
  intros Hcp Hpp Hi. unfold sweep_row, enumerate.
  destruct (sweep_row_from n (length vs) i S vs 0%nat cp pp Hcp Hpp Hi ltac:(lia))
    as (cp' & pp' & Hrun & Hcp' & Hpp' & Hrow & Hrest).
  exists cp', pp'. split; [done|]. split; [done|]. split; [done|]. split.
  - exact Hrow.
  - intros i' j' Hne. apply Hrest. by left.
Qed.

(** The outer loop from row [k] on. *)
Lemma sweep_from n vs sp : forall k cp pp,
  dims n (length vs) cp -> dims n (length vs) pp -> (k + length sp <= n)%nat ->
  exists cp' pp',
    for_each (enumerate_from k sp)
      (fun iS =>
         sweep_row K T r call_purchase_price put_purchase_price vs iS.1 iS.2)
      (cp, pp) = Ok (cp', pp')
    /\ dims n (length vs) cp' /\ dims n (length vs) pp'
    /\ (forall i S j sigma, sp !! i = Some S -> vs !! j = Some sigma ->
          getitem cp' (k + i) j = Some (call_profit S sigma)
          /\ getitem pp' (k + i) j = Some (put_profit S sigma))
    /\ (forall i' j', (i' < k)%nat ->
          getitem cp' i' j' = getitem cp i' j'
          /\ getitem pp' i' j' = getitem pp i' j').
Proof.
  induction sp as [|S sp IH]; intros k cp pp Hcp Hpp Hk.
  - exists cp, pp. split; [done|]. split; [done|]. split; [done|]. split; [|done].
    intros i S j sigma Hi. by rewrite lookup_nil in Hi.
  - simpl in Hk. cbn [enumerate_from for_each fst snd].
    destruct (sweep_row_cells n k S vs cp pp Hcp Hpp ltac:(lia))
      as (cp1 & pp1 & -> & Hcp1 & Hpp1 & Hrow & Hrest).
    cbn [mbind result_bind].
    destruct (IH (Datatypes.S k) cp1 pp1 Hcp1 Hpp1 ltac:(lia))
      as (cp' & pp' & -> & Hcp' & Hpp' & Hnew & Hold).
    exists cp', pp'. split; [done|]. split; [done|]. split; [done|]. split.
    + intros [|i] S' j sigma Hi Hj.
      * injection Hi as <-. rewrite Nat.add_0_r.
        destruct (Hold k j) as [-> ->]; [lia|]. by apply (Hrow j sigma).
      * replace (k + Datatypes.S i)%nat with (Datatypes.S k + i)%nat by lia.
        by apply Hnew.
    + intros i' j' Hlt.
      destruct (Hold i' j') as [-> ->]; [lia|].
      apply Hrest. lia.
Qed.

(** The whole sweep over given axes returns two matrices whose cell
    [(i, j)] holds the profit at [(stock_prices[i], volatilities[j])]. *)
Lemma sweep_cells sp vs :
  exists cp pp,
    sweep K T r call_purchase_price put_purchase_price sp vs = Ok (cp, pp)
    /\ dims (length sp) (length vs) cp /\ dims (length sp) (length vs) pp
    /\ (forall i S j sigma, sp !! i = Some S -> vs !! j = Some sigma ->
          getitem cp i j = Some (call_profit S sigma)
          /\ getitem pp i j = Some (put_profit S sigma)).
Proof.
  unfold sweep, enumerate.
  destruct (sweep_from (length sp) vs sp 0%nat
              (np.zeros (length sp) (length vs)) (np.zeros (length sp) (length vs))
              (zeros_dims _ _) (zeros_dims _ _) ltac:(lia))
    as (cp & pp & Hrun & Hcp & Hpp & Hnew & _).
  exists cp, pp. split; [done|]. split; [done|]. split; [done|]. exact Hnew.
Qed.

End SweepProofs.

(** ** The axes *)

Lemma arange_length num : length (np.arange num) = num.
Proof. unfold np.arange. by rewrite length_map, length_seq. Qed.

Lemma arange_lookup num i : (i < num)%nat -> np.arange num !! i = Some (INR i).
Proof.
  intros Hi. unfold np.arange.
  rewrite list_lookup_fmap, lookup_seq_lt by done. reflexivity.
Qed.

Lemma linspace_length start stop num : length (np.linspace start stop num) = num.
Proof.
  unfold np.linspace.
  repeat case_decide; try destruct (Req_dec_T _ _);
    rewrite ?length_insert, !length_map; apply arange_length.
Qed.

(** With at least two samples, sample [i] is [start + i * step]. *)
Lemma linspace_lookup start stop num i :
  (1 < num)%nat -> (i < num)%nat ->
  np.linspace start stop num !! i
  = Some (start + INR i * ((stop - start) / INR (num - 1))).
Proof.
  intros Hnum Hi.
  assert (Hdiv : INR (num - 1) <> 0) by (apply not_0_INR; lia).
  unfold np.linspace.
  rewrite (decide_True (P := (0 < num - 1)%nat)) by lia.
  rewrite (decide_True (P := (1 < num)%nat)) by done.
  destruct (decide (i = (num - 1)%nat)) as [->|Hne].
  - rewrite list_lookup_insert_eq.
    + f_equal. field. done.
    + destruct (Req_dec_T _ _); rewrite !length_map, arange_length; lia.
  - rewrite list_lookup_insert_ne by done.
    destruct (Req_dec_T _ _);
      rewrite !list_lookup_fmap, arange_lookup by done; simpl; f_equal; field; done.
Qed.

Example linspace_0_1_3 :
  np.linspace 0 1 3 !! 0%nat = Some 0
  /\ np.linspace 0 1 3 !! 1%nat = Some (1 / 2)
  /\ np.linspace 0 1 3 !! 2%nat = Some 1
  /\ np.linspace 0 1 3 !! 3%nat = None.
Proof.
  repeat split.
  - rewrite linspace_lookup by lia. f_equal. simpl. lra.
  - rewrite linspace_lookup by lia. f_equal. simpl. lra.
  - rewrite linspace_lookup by lia. f_equal. simpl. lra.
  - apply lookup_ge_None. rewrite linspace_length. lia.
Qed.

(** A single sample is [start]; the end point is not forced. *)
Example linspace_one_sample (start stop : R) : np.linspace start stop 1 = [start].
Proof.
  unfold np.linspace. simpl. f_equal. lra.
Qed.

Lemma linspace_even_axis lo hi num :
  (1 < num)%nat -> lo < hi -> Spec.even_axis lo hi num (np.linspace lo hi num).
Proof.
  intros Hnum Hlt.
  assert (Hdiv : 0 < INR (num - 1)) by (apply lt_0_INR; lia).
  assert (Hstep : 0 < (hi - lo) / INR (num - 1)) by (apply Rdiv_lt_0_compat; lra).
  assert (Hget : forall i x, np.linspace lo hi num !! i = Some x ->
            (i < num)%nat /\ x = lo + INR i * ((hi - lo) / INR (num - 1))).
  { intros i x Hx.
    assert (Hi : (i < num)%nat).
    { rewrite <- (linspace_length lo hi num). by eapply lookup_lt_Some. }
    rewrite linspace_lookup in Hx by done. by injection Hx as <-. }
  repeat split.
  - apply linspace_length.
  - rewrite head_lookup, linspace_lookup by lia. f_equal. simpl. lra.
  - rewrite last_lookup, linspace_length.
    replace (Init.Nat.pred num) with (num - 1)%nat by lia.
    rewrite linspace_lookup by lia. f_equal. field. lra.
  - intros i x y [Hi ->]%Hget [Hi' ->]%Hget.
    rewrite plus_INR. simpl. lra.
  - intros i j x y Hij [Hi ->]%Hget [Hj ->]%Hget.
    apply lt_INR in Hij. nra.
Qed.

(** ** The claims on the grid *)

(** C8. The sweep returns two matrices, and for every index pair
    [(i, j)] of the 50 x 50 grid the cell of the call matrix is the Call
    price of [black_scholes] at [(stock_prices[i], volatilities[j])], with
    [K], [T] and [r] fixed, minus [call_purchase_price], and the cell of
    the put matrix is the Put price there minus [put_purchase_price]. *)
Theorem profitability_cells (K T r call_purchase_price put_purchase_price : R)
    (S_range sigma_range : R * R) (i j : nat) :
  (i < 50)%nat -> (j < 50)%nat ->
  exists call_profitability put_profitability S sigma call_results put_results,
    profitability K T r call_purchase_price put_purchase_price S_range sigma_range
    = Ok (call_profitability, put_profitability)
    /\ stock_prices S_range !! i = Some S
    /\ volatilities sigma_range !! j = Some sigma
    /\ black_scholes S K T r sigma "Call" = Ok call_results
    /\ black_scholes S K T r sigma "Put" = Ok put_results
    /\ getitem call_profitability i j = Some (Price call_results - call_purchase_price)
    /\ getitem put_profitability i j = Some (Price put_results - put_purchase_price).
Proof.
  intros Hi Hj. unfold profitability.
  destruct (sweep_cells K T r call_purchase_price put_purchase_price
              (stock_prices S_range) (volatilities sigma_range))
    as (cp & pp & Hrun & _ & _ & Hcells).
  destruct (lookup_lt_is_Some_2 (stock_prices S_range) i) as [S HS].
  { unfold stock_prices. by rewrite linspace_length. }
  destruct (lookup_lt_is_Some_2 (volatilities sigma_range) j) as [sigma Hsigma].
  { unfold volatilities. by rewrite linspace_length. }
  destruct (Hcells i S j sigma HS Hsigma) as [Hc Hp].
  destruct (source_call_price S K T r sigma) as (c & Hcall & Hcprice).
  destruct (source_put_price S K T r sigma) as (p & Hput & Hpprice).
  exists cp, pp, S, sigma, c, p.
  rewrite Hcprice, Hpprice. done.
Qed.

Lemma profitability_cells_witness :
  exists call_profitability put_profitability S sigma call_results put_results,
    profitability 100 1 0.05 10 6 (90, 110) (0.15, 0.25)
    = Ok (call_profitability, put_profitability)
    /\ stock_prices (90, 110) !! 7%nat = Some S
    /\ volatilities (0.15, 0.25) !! 49%nat = Some sigma
    /\ black_scholes S 100 1 0.05 sigma "Call" = Ok call_results
    /\ black_scholes S 100 1 0.05 sigma "Put" = Ok put_results
    /\ getitem call_profitability 7 49 = Some (Price call_results - 10)
    /\ getitem put_profitability 7 49 = Some (Price put_results - 6).
Proof.
  apply (profitability_cells 100 1 0.05 10 6 (90, 110) (0.15, 0.25) 7 49); lia.
Defined.

(** C9. When the spot range has [min < max], the spot axis has exactly
    50 entries, evenly spaced and strictly ascending, the first [min] and
    the last [max]; the volatility axis is built the same way over the
    volatility range. *)
Theorem axes_evenly_spaced (S_range : R * R) :
  S_range.1 < S_range.2 ->
  Spec.even_axis S_range.1 S_range.2 50 (stock_prices S_range)
  /\ (forall sigma_range : R * R,
        volatilities sigma_range = stock_prices sigma_range
        /\ (sigma_range.1 < sigma_range.2 ->
            Spec.even_axis sigma_range.1 sigma_range.2 50 (volatilities sigma_range))).
Proof.
  intros HS. split; [|intros sigma_range; split; [reflexivity|intros Hsigma]].
  - apply linspace_even_axis; [lia|done].
  - apply linspace_even_axis; [lia|done].
Qed.

Lemma axes_evenly_spaced_witness :
  Spec.even_axis 90 110 50 (stock_prices (90, 110))
  /\ (forall sigma_range : R * R,
        volatilities sigma_range = stock_prices sigma_range
        /\ (sigma_range.1 < sigma_range.2 ->
            Spec.even_axis sigma_range.1 sigma_range.2 50 (volatilities sigma_range))).
Proof. apply (axes_evenly_spaced (90, 110)). simpl. lra. Defined.

(** * Further properties of the code *)

(** ** The six values [black_scholes] returns *)

(** All six entries of the dictionary returned for "Call".  The theta
    entry is the one line 36 computes, with [-d2]. *)
Lemma source_call_greeks (S K T r sigma : R) :
  exists g, black_scholes S K T r sigma "Call" = Ok g
    /\ Price g = Spec.call_price S K T r sigma
    /\ Delta g = Spec.call_delta S K T r sigma
    /\ Gamma g = Spec.gamma S K T r sigma
    /\ Theta g = Spec.put_theta S K T r sigma
    /\ Vega g = Spec.vega S K T r sigma
    /\ Rho g = Spec.call_rho S K T r sigma.
Proof.
  run_black_scholes. eexists; split; [reflexivity|].
  cbn [Price Delta Gamma Theta Vega Rho].
  repeat split. unfold Spec.put_theta. f_equal. unfold Rdiv. ring.
Qed.

Lemma source_put_greeks (S K T r sigma : R) :
  exists g, black_scholes S K T r sigma "Put" = Ok g
    /\ Price g = Spec.put_price S K T r sigma
    /\ Delta g = Spec.put_delta S K T r sigma
    /\ Gamma g = Spec.gamma S K T r sigma
    /\ Theta g = Spec.put_theta S K T r sigma
    /\ Vega g = Spec.vega S K T r sigma
    /\ Rho g = Spec.put_rho S K T r sigma.
Proof.
  run_black_scholes. eexists; split; [reflexivity|].
  cbn [Price Delta Gamma Theta Vega Rho].
  repeat split.
  - unfold Spec.put_theta. f_equal. unfold Rdiv. ring.
  - unfold Spec.put_rho. ring.
Qed.

(** Only "Call" and "Put" yield a result. *)
Lemma black_scholes_accepts (S K T r sigma : R) (option_type : string) (g : Greeks) :
  black_scholes S K T r sigma option_type = Ok g ->
  option_type = "Call"%string \/ option_type = "Put"%string.
Proof.
  intros Hg.
  destruct (String.eqb_spec option_type "Call") as [->|HC]; [by left|].
  destruct (String.eqb_spec option_type "Put") as [->|HP]; [by right|].
  destruct (black_scholes_dispatch S K T r sigma option_type) as [_ Hraise].
  rewrite (Hraise HC HP) in Hg. discriminate.
Qed.

Lemma norm_pdf_pos (x : R) : 0 < norm.pdf x.
Proof.
  unfold norm.pdf. apply Rdiv_lt_0_compat; [apply exp_pos | apply sqrt_2PI_pos].
Qed.

(** X1. For valid inputs the delta returned for "Call" exceeds the delta
    returned for "Put" by exactly one. *)
Theorem delta_parity (S K T r sigma : R) :
  0 < S -> 0 < K -> 0 < T -> 0 < sigma ->
  exists c p, black_scholes S K T r sigma "Call" = Ok c
    /\ black_scholes S K T r sigma "Put" = Ok p
    /\ Delta c - Delta p = 1.
Proof.
  intros _ _ _ _.
  destruct (source_call_greeks S K T r sigma) as (c & Hc & _ & Hdc & _).
  destruct (source_put_greeks S K T r sigma) as (p & Hp & _ & Hdp & _).
  exists c, p. split; [done|]. split; [done|].
  rewrite Hdc, Hdp. unfold Spec.call_delta, Spec.put_delta.
  rewrite norm_cdf_neg. ring.
Qed.

Lemma delta_parity_witness :
  exists c p, black_scholes 100 100 1 0.05 0.2 "Call" = Ok c
    /\ black_scholes 100 100 1 0.05 0.2 "Put" = Ok p
    /\ Delta c - Delta p = 1.
Proof. apply (delta_parity 100 100 1 0.05 0.2); lra. Defined.

(** X2. For valid inputs the rho returned for "Call" minus the rho
    returned for "Put" is [K T e^(-rT)]. *)
Theorem rho_parity (S K T r sigma : R) :
  0 < S -> 0 < K -> 0 < T -> 0 < sigma ->
  exists c p, black_scholes S K T r sigma "Call" = Ok c
    /\ black_scholes S K T r sigma "Put" = Ok p
    /\ Rho c - Rho p = K * T * exp (- (r * T)).
Proof.
  intros _ _ _ _.
  destruct (source_call_greeks S K T r sigma) as (c & Hc & _ & _ & _ & _ & _ & Hrc).
  destruct (source_put_greeks S K T r sigma) as (p & Hp & _ & _ & _ & _ & _ & Hrp).
  exists c, p. split; [done|]. split; [done|].
  rewrite Hrc, Hrp. unfold Spec.call_rho, Spec.put_rho, Spec.discount.
  rewrite norm_cdf_neg. ring.
Qed.

Lemma rho_parity_witness :
  exists c p, black_scholes 100 100 1 0.05 0.2 "Call" = Ok c
    /\ black_scholes 100 100 1 0.05 0.2 "Put" = Ok p
    /\ Rho c - Rho p = 100 * 1 * exp (- (0.05 * 1)).
Proof. apply (rho_parity 100 100 1 0.05 0.2); lra. Defined.

(** X3. The theta entry does not depend on the option type: whatever
    option type the function accepts, the result carries the same theta,
    the one computed with [Phi(-d2)]; the [d2] operand of line 36 is
    never used. *)
Theorem theta_ignores_option_type (S K T r sigma : R) (option_type : string) (g : Greeks) :
  black_scholes S K T r sigma option_type = Ok g ->
  Theta g = Spec.put_theta S K T r sigma
  /\ exists c p, black_scholes S K T r sigma "Call" = Ok c
       /\ black_scholes S K T r sigma "Put" = Ok p
       /\ Theta c = Theta p.
Proof.
  intros Hg.
  destruct (source_call_greeks S K T r sigma) as (c & Hc & _ & _ & _ & Htc & _).
  destruct (source_put_greeks S K T r sigma) as (p & Hp & _ & _ & _ & Htp & _).
  split.
  - destruct (black_scholes_accepts _ _ _ _ _ _ _ Hg) as [-> | ->].
    + rewrite Hc in Hg. by injection Hg as <-.
    + rewrite Hp in Hg. by injection Hg as <-.
  - exists c, p. split; [done|]. split; [done|]. by rewrite Htc, Htp.
Qed.

Lemma theta_ignores_option_type_witness :
  exists g, black_scholes 100 100 1 0.05 0.2 "Call" = Ok g
    /\ Theta g = Spec.put_theta 100 100 1 0.05 0.2
    /\ exists c p, black_scholes 100 100 1 0.05 0.2 "Call" = Ok c
         /\ black_scholes 100 100 1 0.05 0.2 "Put" = Ok p
         /\ Theta c = Theta p.
Proof.
  eexists. split; [reflexivity|].
  apply (theta_ignores_option_type 100 100 1 0.05 0.2 "Call"). reflexivity.
Defined.

(** X4. For valid inputs gamma and vega are never negative, for either
    option type. *)
Theorem gamma_vega_nonnegative (S K T r sigma : R) (option_type : string) (g : Greeks) :
  0 < S -> 0 < K -> 0 < T -> 0 < sigma ->
  black_scholes S K T r sigma option_type = Ok g ->
  0 <= Gamma g /\ 0 <= Vega g.
Proof.
  intros HS _ HT Hsigma Hg.
  assert (HsT : 0 < sqrt T) by (by apply sqrt_lt_R0).
  assert (Hgv : Gamma g = Spec.gamma S K T r sigma /\ Vega g = Spec.vega S K T r sigma).
  { destruct (source_call_greeks S K T r sigma) as (c & Hc & _ & _ & Hgc & _ & Hvc & _).
    destruct (source_put_greeks S K T r sigma) as (p & Hp & _ & _ & Hgp & _ & Hvp & _).
    destruct (black_scholes_accepts _ _ _ _ _ _ _ Hg) as [-> | ->].
    - rewrite Hc in Hg. by injection Hg as <-.
    - rewrite Hp in Hg. by injection Hg as <-. }
  destruct Hgv as [-> ->]. unfold Spec.gamma, Spec.vega.
  pose proof (norm_pdf_pos (Spec.d1 S K T r sigma)) as Hpdf.
  assert (Hden : 0 < S * sigma * sqrt T).
  { apply Rmult_lt_0_compat; [apply Rmult_lt_0_compat|]; assumption. }
  split.
  - apply Rlt_le, Rdiv_lt_0_compat; assumption.
  - apply Rlt_le. apply Rmult_lt_0_compat; [apply Rmult_lt_0_compat|]; assumption.
Qed.

Lemma gamma_vega_nonnegative_witness :
  exists g, black_scholes 100 100 1 0.05 0.2 "Put" = Ok g
    /\ 0 <= Gamma g /\ 0 <= Vega g.
Proof.
  eexists. split; [reflexivity|].
  apply (gamma_vega_nonnegative 100 100 1 0.05 0.2 "Put"); [lra..|reflexivity].
Defined.

(** Gamma and vega of any result, whatever the accepted option type. *)
Lemma source_gamma_vega (S K T r sigma : R) (option_type : string) (g : Greeks) :
  black_scholes S K T r sigma option_type = Ok g ->
  Gamma g = Spec.gamma S K T r sigma /\ Vega g = Spec.vega S K T r sigma.
Proof.
  intros Hg.
  destruct (source_call_greeks S K T r sigma) as (c & Hc & _ & _ & Hgc & _ & Hvc & _).
  destruct (source_put_greeks S K T r sigma) as (p & Hp & _ & _ & Hgp & _ & Hvp & _).
  destruct (black_scholes_accepts _ _ _ _ _ _ _ Hg) as [-> | ->].
  - rewrite Hc in Hg. by injection Hg as <-.
  - rewrite Hp in Hg. by injection Hg as <-.
Qed.

(** X5. For valid inputs vega and gamma of a result are tied by
    [vega = gamma * S^2 * sigma * T]. *)
Theorem vega_gamma_relation (S K T r sigma : R) (option_type : string) (g : Greeks) :
  0 < S -> 0 < K -> 0 < T -> 0 < sigma ->
  black_scholes S K T r sigma option_type = Ok g ->
  Vega g = Gamma g * S ^ 2 * sigma * T.
Proof.
  intros HS _ HT Hsigma Hg.
  destruct (source_gamma_vega _ _ _ _ _ _ _ Hg) as [-> ->].
  unfold Spec.gamma, Spec.vega.
  assert (HsT : 0 < sqrt T) by (by apply sqrt_lt_R0).
  assert (Hsq : sqrt T * sqrt T = T) by (apply sqrt_sqrt; lra).
  generalize dependent (norm.pdf (Spec.d1 S K T r sigma)). intros p.
  generalize dependent (sqrt T). intros s Hs Hsq.
  rewrite <- Hsq. field. repeat split; lra.
Qed.

Lemma vega_gamma_relation_witness :
  exists g, black_scholes 100 100 1 0.05 0.2 "Call" = Ok g
    /\ Vega g = Gamma g * 100 ^ 2 * 0.2 * 1.
Proof.
  eexists. split; [reflexivity|].
  apply (vega_gamma_relation 100 100 1 0.05 0.2 "Call"); [lra..|reflexivity].
Defined.

(** Scaling spot and strike together leaves [d1] and [d2] unchanged. *)
Lemma d1_scale (lam S K T r sigma : R) :
  lam <> 0 -> K <> 0 ->
  Spec.d1 (lam * S) (lam * K) T r sigma = Spec.d1 S K T r sigma.
Proof.
  intros Hlam HK. unfold Spec.d1.
  replace (lam * S / (lam * K)) with (S / K) by (field; done).
  reflexivity.
Qed.

Lemma d2_scale (lam S K T r sigma : R) :
  lam <> 0 -> K <> 0 ->
  Spec.d2 (lam * S) (lam * K) T r sigma = Spec.d2 S K T r sigma.
Proof. intros Hlam HK. unfold Spec.d2. by rewrite d1_scale. Qed.

(** X6. The pricing function is homogeneous in spot and strike: for valid
    inputs and [lam > 0], pricing at [(lam S, lam K)] multiplies price,
    theta, vega and rho by [lam], leaves delta unchanged and divides
    gamma by [lam]. *)
Theorem black_scholes_homogeneous (lam S K T r sigma : R) (option_type : string)
    (g : Greeks) :
  0 < lam -> 0 < S -> 0 < K -> 0 < T -> 0 < sigma ->
  black_scholes S K T r sigma option_type = Ok g ->
  exists g', black_scholes (lam * S) (lam * K) T r sigma option_type = Ok g'
    /\ Price g' = lam * Price g
    /\ Delta g' = Delta g
    /\ Gamma g' = Gamma g / lam
    /\ Theta g' = lam * Theta g
    /\ Vega g' = lam * Vega g
    /\ Rho g' = lam * Rho g.
Proof.
  intros Hlam HS HK HT Hsigma Hg.
  assert (HsT : 0 < sqrt T) by (by apply sqrt_lt_R0).
  assert (Hd1 := d1_scale lam S K T r sigma ltac:(lra) ltac:(lra)).
  assert (Hd2 := d2_scale lam S K T r sigma ltac:(lra) ltac:(lra)).
  destruct (black_scholes_accepts _ _ _ _ _ _ _ Hg) as [-> | ->].
  - destruct (source_call_greeks S K T r sigma)
      as (c & Hc & Hp1 & Hp2 & Hp3 & Hp4 & Hp5 & Hp6).
    rewrite Hc in Hg. injection Hg as <-.
    destruct (source_call_greeks (lam * S) (lam * K) T r sigma)
      as (c' & Hc' & Hq1 & Hq2 & Hq3 & Hq4 & Hq5 & Hq6).
    exists c'. split; [done|].
    rewrite Hp1, Hp2, Hp3, Hp4, Hp5, Hp6, Hq1, Hq2, Hq3, Hq4, Hq5, Hq6.
    unfold Spec.call_price, Spec.call_delta, Spec.gamma, Spec.put_theta,
      Spec.vega, Spec.call_rho.
    rewrite Hd1, Hd2.
    repeat split; try ring; field; repeat split; lra.
  - destruct (source_put_greeks S K T r sigma)
      as (p & Hp & Hp1 & Hp2 & Hp3 & Hp4 & Hp5 & Hp6).
    rewrite Hp in Hg. injection Hg as <-.
    destruct (source_put_greeks (lam * S) (lam * K) T r sigma)
      as (p' & Hp' & Hq1 & Hq2 & Hq3 & Hq4 & Hq5 & Hq6).
    exists p'. split; [done|].
    rewrite Hp1, Hp2, Hp3, Hp4, Hp5, Hp6, Hq1, Hq2, Hq3, Hq4, Hq5, Hq6.
    unfold Spec.put_price, Spec.put_delta, Spec.gamma, Spec.put_theta,
      Spec.vega, Spec.put_rho.
    rewrite Hd1, Hd2.
    repeat split; try ring; field; repeat split; lra.
Qed.

Lemma black_scholes_homogeneous_witness :
  exists g, black_scholes 100 100 1 0.05 0.2 "Put" = Ok g
    /\ exists g', black_scholes (2 * 100) (2 * 100) 1 0.05 0.2 "Put" = Ok g'
         /\ Price g' = 2 * Price g
         /\ Delta g' = Delta g
         /\ Gamma g' = Gamma g / 2
         /\ Theta g' = 2 * Theta g
         /\ Vega g' = 2 * Vega g
         /\ Rho g' = 2 * Rho g.
Proof.
  eexists. split; [reflexivity|].
  apply (black_scholes_homogeneous 2 100 100 1 0.05 0.2 "Put"); [lra..|reflexivity].
Defined.

(** At the money with a zero rate, [d1 = sigma sqrt(T) / 2 = -d2]. *)
Lemma d1_at_the_money (S T sigma : R) :
  0 < S -> 0 < T -> 0 < sigma ->
  Spec.d1 S S T 0 sigma = sigma * sqrt T / 2
  /\ Spec.d2 S S T 0 sigma = - (sigma * sqrt T / 2).
Proof.
  intros HS HT Hsigma.
  assert (HsT : 0 < sqrt T) by (by apply sqrt_lt_R0).
  assert (Hsq : sqrt T * sqrt T = T) by (apply sqrt_sqrt; lra).
  assert (Hd1 : Spec.d1 S S T 0 sigma = sigma * sqrt T / 2).
  { unfold Spec.d1, Rsqr.
    replace (S / S) with 1 by (field; lra). rewrite ln_1.
    rewrite <- Hsq at 1. replace 0.5 with (/ 2) by lra. field. split; lra. }
  split; [done|]. unfold Spec.d2. rewrite Hd1. lra.
Qed.

(** X7. At the money ([S = K]) with a zero rate, the Call and the Put
    have the same price [S (2 Phi(sigma sqrt(T) / 2) - 1)], the Call delta
    is [Phi(sigma sqrt(T) / 2)], and the price is positive when
    [sigma sqrt(T) <= 2]. *)
Theorem at_the_money_zero_rate (S T sigma : R) :
  0 < S -> 0 < T -> 0 < sigma ->
  exists c p, black_scholes S S T 0 sigma "Call" = Ok c
    /\ black_scholes S S T 0 sigma "Put" = Ok p
    /\ Price c = S * (2 * norm.cdf (sigma * sqrt T / 2) - 1)
    /\ Price p = Price c
    /\ Delta c = norm.cdf (sigma * sqrt T / 2)
    /\ (sigma * sqrt T <= 2 -> 0 < Price c).
Proof.
  intros HS HT Hsigma.
  assert (HsT : 0 < sqrt T) by (by apply sqrt_lt_R0).
  destruct (d1_at_the_money S T sigma HS HT Hsigma) as [Hd1 Hd2].
  destruct (source_call_greeks S S T 0 sigma) as (c & Hc & Hpc & Hdc & _).
  destruct (source_put_greeks S S T 0 sigma) as (p & Hp & Hpp & _).
  exists c, p. split; [done|]. split; [done|].
  assert (Hdisc : Spec.discount 0 T = 1).
  { unfold Spec.discount. rewrite Rmult_0_l, Ropp_0. apply exp_0. }
  assert (Hprice : Price c = S * (2 * norm.cdf (sigma * sqrt T / 2) - 1)).
  { rewrite Hpc. unfold Spec.call_price. rewrite Hd1, Hd2, Hdisc, norm_cdf_neg. ring. }
  split; [done|]. split; [|split].
  - rewrite Hprice, Hpp. unfold Spec.put_price.
    rewrite Hd1, Hd2, Hdisc, Ropp_involutive, norm_cdf_neg. ring.
  - rewrite Hdc. unfold Spec.call_delta. by rewrite Hd1.
  - intros Hle. rewrite Hprice.
    assert (0 < sigma * sqrt T) by (by apply Rmult_lt_0_compat).
    pose proof (norm_cdf_gt_half (sigma * sqrt T / 2) ltac:(lra)).
    apply Rmult_lt_0_compat; lra.
Qed.

Lemma at_the_money_zero_rate_witness :
  exists c p, black_scholes 100 100 1 0 0.2 "Call" = Ok c
    /\ black_scholes 100 100 1 0 0.2 "Put" = Ok p
    /\ Price c = 100 * (2 * norm.cdf (0.2 * sqrt 1 / 2) - 1)
    /\ Price p = Price c
    /\ Delta c = norm.cdf (0.2 * sqrt 1 / 2)
    /\ (0.2 * sqrt 1 <= 2 -> 0 < Price c).
Proof. apply (at_the_money_zero_rate 100 1 0.2); lra. Defined.

(** ** Delta at the money *)

Lemma sqrt_2PI_gt_2 : 2 < sqrt (2 * PI).
Proof.
  pose proof PI2_1 as Hpi.
  replace 2 with (sqrt (2 * 2)) at 1 by (apply sqrt_square; lra).
  apply sqrt_lt_1; lra.
Qed.

(** On [[0, 1]] the alternating series is at most its first term. *)
Lemma cdf_series_upper (y : R) :
  0 <= y <= 1 -> proj1_sig (norm.cdf_series y) <= 1.
Proof.
  intros Hy. destruct (norm.cdf_series y) as [l Hl]; simpl.
  assert (Hcv : Un_cv (fun N => sum_f_R0 (tg_alt (cdf_term y)) N) l).
  { intros eps Heps. destruct (Hl eps Heps) as [N HN]. exists N. intros n Hn.
    specialize (HN n Hn).
    erewrite sum_eq; [exact HN|].
    intros i _. unfold tg_alt, cdf_term, norm.cdf_coef. simpl. field.
    apply Rgt_not_eq, norm.cdf_den_pos. }
  destruct (alternated_series_ineq (cdf_term y) l 0
              (cdf_term_decreasing y Hy)
              (norm.squeeze_inv_S _ (fun n => cdf_term_bounds y n Hy)) Hcv) as [_ Hhi].
  eapply Rle_trans; [exact Hhi|].
  simpl. unfold tg_alt, cdf_term, norm.cdf_den. simpl. lra.
Qed.

Lemma norm_cdf_lt_one (x : R) : 0 < x <= 1 -> norm.cdf x < 1.
Proof.
  intros [Hx0 Hx1]. unfold norm.cdf.
  assert (Hs := sqrt_2PI_gt_2).
  assert (Hy : 0 <= x ^ 2 <= 1) by nra.
  assert (Hu := cdf_series_upper (x ^ 2) Hy).
  assert (Hl := cdf_series_lower (x ^ 2) Hy).
  assert (Hq : 0 < x / sqrt (2 * PI) < 1 / 2).
  { split; [apply Rdiv_lt_0_compat; lra|].
    apply Rmult_lt_reg_r with (sqrt (2 * PI)); [lra|].
    unfold Rdiv. rewrite Rmult_assoc, Rinv_l by lra. lra. }
  nra.
Qed.

(** X8. At the money ([S = K]) with a rate that is not negative, as
    long as [d1 <= 1], the Call delta lies strictly between 1/2 and 1
    and the Put delta strictly between -1/2 and 0. *)
Theorem at_the_money_delta (S T r sigma : R) :
  0 < S -> 0 < T -> 0 <= r -> 0 < sigma ->
  (r + 0.5 * sigma²) * T <= sigma * sqrt T ->
  exists c p, black_scholes S S T r sigma "Call" = Ok c
    /\ black_scholes S S T r sigma "Put" = Ok p
    /\ 1 / 2 < Delta c < 1
    /\ - (1 / 2) < Delta p < 0.
Proof.
  intros HS HT Hr Hsigma Hle.
  assert (HsT : 0 < sqrt T) by (by apply sqrt_lt_R0).
  assert (Hden : 0 < sigma * sqrt T) by (by apply Rmult_lt_0_compat).
  assert (Hd1 : 0 < Spec.d1 S S T r sigma <= 1).
  { unfold Spec.d1. replace (S / S) with 1 by (field; lra). rewrite ln_1, Rplus_0_l.
    assert (Hnum : 0 < (r + 0.5 * sigma²) * T).
    { apply Rmult_lt_0_compat; [|done]. unfold Rsqr. nra. }
    split.
    - by apply Rdiv_lt_0_compat.
    - apply Rmult_le_reg_r with (sigma * sqrt T); [done|].
      unfold Rdiv. rewrite Rmult_assoc, Rinv_l by lra. lra. }
  destruct (source_call_greeks S S T r sigma) as (c & Hc & _ & Hdc & _).
  destruct (source_put_greeks S S T r sigma) as (p & Hp & _ & Hdp & _).
  exists c, p. split; [done|]. split; [done|].
  rewrite Hdc, Hdp. unfold Spec.call_delta, Spec.put_delta. rewrite norm_cdf_neg.
  pose proof (norm_cdf_gt_half _ Hd1). pose proof (norm_cdf_lt_one _ Hd1).
  lra.
Qed.

Lemma at_the_money_delta_witness :
  exists c p, black_scholes 100 100 1 0.05 0.2 "Call" = Ok c
    /\ black_scholes 100 100 1 0.05 0.2 "Put" = Ok p
    /\ 1 / 2 < Delta c < 1
    /\ - (1 / 2) < Delta p < 0.
Proof.
  apply (at_the_money_delta 100 1 0.05 0.2); try lra.
  rewrite sqrt_1. unfold Rsqr. lra.
Defined.

(** ** The profitability sweep *)

(** Put-call parity of the closed form, for all arguments. *)
Lemma spec_parity (S K T r sigma : R) :
  Spec.call_price S K T r sigma - Spec.put_price S K T r sigma
  = S - K * exp (- (r * T)).
Proof.
  unfold Spec.call_price, Spec.put_price, Spec.discount.
  rewrite !norm_cdf_neg. ring.
Qed.

(** The sweep of lines 140-153 returns; its matrices are 50 by 50 and
    cell [(i, j)] holds the profit at [(stock_prices[i], volatilities[j])]. *)
Lemma profitability_run (K T r call_purchase_price put_purchase_price : R)
    (S_range sigma_range : R * R) :
  exists cp pp,
    profitability K T r call_purchase_price put_purchase_price S_range sigma_range
    = Ok (cp, pp)
    /\ dims 50 50 cp /\ dims 50 50 pp
    /\ (forall i j, (i < 50)%nat -> (j < 50)%nat ->
          exists S sigma,
            stock_prices S_range !! i = Some S
            /\ volatilities sigma_range !! j = Some sigma
            /\ getitem cp i j = Some (Spec.call_profit S K T r sigma call_purchase_price)
            /\ getitem pp i j = Some (Spec.put_profit S K T r sigma put_purchase_price)).
Proof.
  unfold profitability.
  destruct (sweep_cells K T r call_purchase_price put_purchase_price
              (stock_prices S_range) (volatilities sigma_range))
    as (cp & pp & Hrun & Hcp & Hpp & Hcells).
  unfold stock_prices, volatilities in Hcp, Hpp. rewrite !linspace_length in Hcp, Hpp.
  exists cp, pp. split; [done|]. split; [done|]. split; [done|].
  intros i j Hi Hj.
  destruct (lookup_lt_is_Some_2 (stock_prices S_range) i) as [S HS].
  { unfold stock_prices. by rewrite linspace_length. }
  destruct (lookup_lt_is_Some_2 (volatilities sigma_range) j) as [sigma Hsigma].
  { unfold volatilities. by rewrite linspace_length. }
  exists S, sigma. split; [done|]. split; [done|]. by apply Hcells.
Qed.

(** X9. Whatever the inputs, the sweep returns two matrices of 50 rows
    of 50 entries each. *)
Theorem profitability_shape (K T r call_purchase_price put_purchase_price : R)
    (S_range sigma_range : R * R) :
  exists call_profitability put_profitability,
    profitability K T r call_purchase_price put_purchase_price S_range sigma_range
    = Ok (call_profitability, put_profitability)
    /\ length call_profitability = 50%nat
    /\ length put_profitability = 50%nat
    /\ Forall (fun row => length row = 50%nat) call_profitability
    /\ Forall (fun row => length row = 50%nat) put_profitability.
Proof.
  destruct (profitability_run K T r call_purchase_price put_purchase_price
              S_range sigma_range) as (cp & pp & Hrun & [Hn Hm] & [Hn' Hm'] & _).
  exists cp, pp. split; [done|]. split; [done|]. split; [done|].
  split; apply Forall_lookup; eauto.
Qed.

(** Every sample lies between the end points of an ordered range. *)
Lemma linspace_within (lo hi : R) (i : nat) (x : R) :
  lo <= hi -> np.linspace lo hi 50 !! i = Some x -> lo <= x <= hi.
Proof.
  intros Hle Hi.
  assert (Hlt : (i < 50)%nat).
  { rewrite <- (linspace_length lo hi 50). by eapply lookup_lt_Some. }
  rewrite linspace_lookup in Hi by lia. injection Hi as <-.
  assert (H0 : 0 <= INR i) by apply pos_INR.
  assert (H49 : INR i <= 49).
  { replace 49 with (INR 49) by (simpl; lra). apply le_INR. lia. }
  replace (INR (50 - 1)) with 49 by (simpl; lra).
  split; nra.
Qed.

(** On a grid of positive spots and volatilities, cell [(i, j)] is
    computed at a valid point [(S, sigma)] and holds the two profits
    there. *)
Lemma profitability_valid_cell (K T r call_purchase_price put_purchase_price : R)
    (S_range sigma_range : R * R) :
  0 < S_range.1 <= S_range.2 -> 0 < sigma_range.1 <= sigma_range.2 ->
  exists cp pp,
    profitability K T r call_purchase_price put_purchase_price S_range sigma_range
    = Ok (cp, pp)
    /\ (forall i j, (i < 50)%nat -> (j < 50)%nat ->
          exists S sigma,
            stock_prices S_range !! i = Some S
            /\ volatilities sigma_range !! j = Some sigma
            /\ 0 < S /\ 0 < sigma
            /\ getitem cp i j = Some (Spec.call_profit S K T r sigma call_purchase_price)
            /\ getitem pp i j = Some (Spec.put_profit S K T r sigma put_purchase_price)).
Proof.
  intros [HS0 HS1] [Hv0 Hv1].
  destruct (profitability_run K T r call_purchase_price put_purchase_price
              S_range sigma_range) as (cp & pp & Hrun & _ & _ & Hcells).
  exists cp, pp. split; [done|]. intros i j Hi Hj.
  destruct (Hcells i j Hi Hj) as (S & sigma & HS & Hsigma & Hc & Hp).
  exists S, sigma.
  pose proof (linspace_within _ _ _ _ HS1 HS) as [HSlo _].
  pose proof (linspace_within _ _ _ _ Hv1 Hsigma) as [Hvlo _].
  repeat split; try done; lra.
Qed.

(** X10. Put-call parity on the grid: with a positive strike and time
    and ranges of positive spots and volatilities, every cell is computed
    at a valid point, and there the call profit minus the put profit is
    [stock_prices[i] - K e^(-rT)] less the difference of the purchase
    prices; it does not depend on the volatility column. *)
Theorem profitability_parity (K T r call_purchase_price put_purchase_price : R)
    (S_range sigma_range : R * R) (i j : nat) :
  0 < K -> 0 < T ->
  0 < S_range.1 <= S_range.2 -> 0 < sigma_range.1 <= sigma_range.2 ->
  (i < 50)%nat -> (j < 50)%nat ->
  exists call_profitability put_profitability S sigma c p,
    profitability K T r call_purchase_price put_purchase_price S_range sigma_range
    = Ok (call_profitability, put_profitability)
    /\ stock_prices S_range !! i = Some S
    /\ volatilities sigma_range !! j = Some sigma
    /\ 0 < S /\ 0 < sigma
    /\ getitem call_profitability i j = Some c
    /\ getitem put_profitability i j = Some p
    /\ c - p = (S - K * exp (- (r * T))) - (call_purchase_price - put_purchase_price).
Proof.
  intros _ _ HSr Hvr Hi Hj.
  destruct (profitability_valid_cell K T r call_purchase_price put_purchase_price
              S_range sigma_range HSr Hvr) as (cp & pp & Hrun & Hcells).
  destruct (Hcells i j Hi Hj) as (S & sigma & HS & Hsigma & HSpos & Hvpos & Hc & Hp).
  exists cp, pp, S, sigma. do 2 eexists.
  split; [done|]. split; [done|]. split; [done|]. split; [done|]. split; [done|].
  split; [exact Hc|]. split; [exact Hp|].
  unfold Spec.call_profit, Spec.put_profit.
  pose proof (spec_parity S K T r sigma). lra.
Qed.

Lemma profitability_parity_witness :
  exists call_profitability put_profitability S sigma c p,
    profitability 100 1 0.05 10 6 (90, 110) (0.15, 0.25)
    = Ok (call_profitability, put_profitability)
    /\ stock_prices (90, 110) !! 3%nat = Some S
    /\ volatilities (0.15, 0.25) !! 12%nat = Some sigma
    /\ 0 < S /\ 0 < sigma
    /\ getitem call_profitability 3 12 = Some c
    /\ getitem put_profitability 3 12 = Some p
    /\ c - p = (S - 100 * exp (- (0.05 * 1))) - (10 - 6).
Proof.
  apply (profitability_parity 100 1 0.05 10 6 (90, 110) (0.15, 0.25) 3 12);
    simpl; try lra; lia.
Defined.

(** Equal end points give a constant sequence. *)
Lemma linspace_constant (a : R) (num : nat) :
  (1 < num)%nat -> np.linspace a a num = replicate num a.
Proof.
  intros Hnum. apply list_eq. intros i.
  destruct (decide (i < num)%nat) as [Hi|Hi].
  - rewrite linspace_lookup by lia.
    rewrite lookup_replicate_2 by done. f_equal. unfold Rdiv. ring.
  - rewrite !lookup_ge_None_2; [done| |].
    + rewrite length_replicate. lia.
    + rewrite linspace_length. lia.
Qed.

(** X11. A range whose ends coincide gives a constant axis: fifty copies
    of the value, for the spot axis and for the volatility axis. *)
Theorem degenerate_axis (range : R * R) :
  range.1 = range.2 ->
  stock_prices range = replicate 50 range.1
  /\ volatilities range = replicate 50 range.1.
Proof.
  intros Heq. unfold stock_prices, volatilities. rewrite <- Heq.
  split; apply linspace_constant; lia.
Qed.

Lemma degenerate_axis_witness :
  stock_prices (100, 100) = replicate 50 (100, 100).1
  /\ volatilities (100, 100) = replicate 50 (100, 100).1.
Proof. apply (degenerate_axis (100, 100)). reflexivity. Defined.

(** X12. With an ordered range every point of the axis lies in the
    range, for the spot axis and for the volatility axis. *)
Theorem axis_within_range (range : R * R) (x : R) :
  range.1 <= range.2 ->
  x ∈ stock_prices range \/ x ∈ volatilities range ->
  range.1 <= x <= range.2.
Proof.
  intros Hle Hin.
  assert (Hx : x ∈ np.linspace range.1 range.2 50) by (by destruct Hin).
  apply list_elem_of_lookup in Hx as [i Hi].
  assert (Hlt : (i < 50)%nat).
  { rewrite <- (linspace_length range.1 range.2 50). by eapply lookup_lt_Some. }
  rewrite linspace_lookup in Hi by lia. injection Hi as <-.
  assert (H0 : 0 <= INR i) by apply pos_INR.
  assert (H49 : INR i <= 49).
  { replace 49 with (INR 49) by (simpl; lra). apply le_INR. lia. }
  replace (INR (50 - 1)) with 49 by (simpl; lra).
  split; nra.
Qed.

Lemma axis_within_range_witness :
  90 ∈ stock_prices (90, 110) /\ (90, 110).1 <= 90 <= (90, 110).2.
Proof.
  assert (Hin : 90 ∈ stock_prices (90, 110)).
  { unfold stock_prices. apply list_elem_of_lookup. exists 0%nat.
    rewrite linspace_lookup by lia. f_equal. simpl. lra. }
  split; [exact Hin|].
  apply (axis_within_range (90, 110) 90); [simpl; lra|by left].
Defined.

(** X13. A flat range flattens the grid: when the spot range has equal
    ends every row equals row 0, and when the volatility range has equal
    ends every column equals column 0, in both matrices. *)
Theorem flat_range_flat_grid (K T r call_purchase_price put_purchase_price : R)
    (S_range sigma_range : R * R) (i j : nat) :
  (i < 50)%nat -> (j < 50)%nat ->
  exists call_profitability put_profitability,
    profitability K T r call_purchase_price put_purchase_price S_range sigma_range
    = Ok (call_profitability, put_profitability)
    /\ (S_range.1 = S_range.2 ->
        getitem call_profitability i j = getitem call_profitability 0 j
        /\ getitem put_profitability i j = getitem put_profitability 0 j)
    /\ (sigma_range.1 = sigma_range.2 ->
        getitem call_profitability i j = getitem call_profitability i 0
        /\ getitem put_profitability i j = getitem put_profitability i 0).
Proof.
  intros Hi Hj.
  destruct (profitability_run K T r call_purchase_price put_purchase_price
              S_range sigma_range) as (cp & pp & Hrun & _ & _ & Hcells).
  exists cp, pp. split; [done|].
  destruct (Hcells i j Hi Hj) as (S & sigma & HS & Hsigma & Hc & Hp).
  split; intros Heq.
  - destruct (Hcells 0%nat j ltac:(lia) Hj) as (S0 & sigma0 & HS0 & Hsigma0 & Hc0 & Hp0).
    assert (S0 = S /\ sigma0 = sigma) as [-> ->].
    { split; [|congruence].
      unfold stock_prices in HS, HS0. rewrite <- Heq in HS, HS0.
      rewrite linspace_constant in HS, HS0 by lia.
      apply lookup_replicate in HS as [-> _]. by apply lookup_replicate in HS0 as [-> _]. }
    by rewrite Hc, Hp, Hc0, Hp0.
  - destruct (Hcells i 0%nat Hi ltac:(lia)) as (S0 & sigma0 & HS0 & Hsigma0 & Hc0 & Hp0).
    assert (S0 = S /\ sigma0 = sigma) as [-> ->].
    { split; [congruence|].
      unfold volatilities in Hsigma, Hsigma0. rewrite <- Heq in Hsigma, Hsigma0.
      rewrite linspace_constant in Hsigma, Hsigma0 by lia.
      apply lookup_replicate in Hsigma as [-> _].
      by apply lookup_replicate in Hsigma0 as [-> _]. }
    by rewrite Hc, Hp, Hc0, Hp0.
Qed.

Lemma flat_range_flat_grid_witness :
  exists call_profitability put_profitability,
    profitability 100 1 0.05 10 6 (100, 100) (0.2, 0.2)
    = Ok (call_profitability, put_profitability)
    /\ ((100, 100).1 = (100, 100).2 ->
        getitem call_profitability 7 9 = getitem call_profitability 0 9
        /\ getitem put_profitability 7 9 = getitem put_profitability 0 9)
    /\ ((0.2, 0.2).1 = (0.2, 0.2).2 ->
        getitem call_profitability 7 9 = getitem call_profitability 7 0
        /\ getitem put_profitability 7 9 = getitem put_profitability 7 0).
Proof.
  apply (flat_range_flat_grid 100 1 0.05 10 6 (100, 100) (0.2, 0.2) 7 9); lia.
Defined.

(** X14. The purchase prices only shift the surfaces: with a positive
    strike and time and ranges of positive spots and volatilities, two
    sweeps that differ in the purchase prices alone are computed at the
    same valid point in every cell and differ there by the difference of
    the purchase prices. *)
Theorem purchase_price_shifts_grid (K T r call_price1 put_price1 call_price2 put_price2 : R)
    (S_range sigma_range : R * R) (i j : nat) :
  0 < K -> 0 < T ->
  0 < S_range.1 <= S_range.2 -> 0 < sigma_range.1 <= sigma_range.2 ->
  (i < 50)%nat -> (j < 50)%nat ->
  exists call1 put1 call2 put2 S sigma c1 p1 c2 p2,
    profitability K T r call_price1 put_price1 S_range sigma_range = Ok (call1, put1)
    /\ profitability K T r call_price2 put_price2 S_range sigma_range = Ok (call2, put2)
    /\ stock_prices S_range !! i = Some S
    /\ volatilities sigma_range !! j = Some sigma
    /\ 0 < S /\ 0 < sigma
    /\ getitem call1 i j = Some c1 /\ getitem call2 i j = Some c2
    /\ getitem put1 i j = Some p1 /\ getitem put2 i j = Some p2
    /\ c1 - c2 = call_price2 - call_price1
    /\ p1 - p2 = put_price2 - put_price1.
Proof.
  intros _ _ HSr Hvr Hi Hj.
  destruct (profitability_valid_cell K T r call_price1 put_price1
              S_range sigma_range HSr Hvr) as (cp1 & pp1 & Hrun1 & Hcells1).
  destruct (profitability_valid_cell K T r call_price2 put_price2
              S_range sigma_range HSr Hvr) as (cp2 & pp2 & Hrun2 & Hcells2).
  destruct (Hcells1 i j Hi Hj) as (S & sigma & HS & Hsigma & HSpos & Hvpos & Hc1 & Hp1).
  destruct (Hcells2 i j Hi Hj) as (S' & sigma' & HS' & Hsigma' & _ & _ & Hc2 & Hp2).
  assert (S' = S) as -> by congruence.
  assert (sigma' = sigma) as -> by congruence.
  exists cp1, pp1, cp2, pp2, S, sigma. do 4 eexists.
  split; [done|]. split; [done|]. split; [done|]. split; [done|].
  split; [done|]. split; [done|].
  split; [exact Hc1|]. split; [exact Hc2|]. split; [exact Hp1|]. split; [exact Hp2|].
  unfold Spec.call_profit, Spec.put_profit. split; ring.
Qed.

Lemma purchase_price_shifts_grid_witness :
  exists call1 put1 call2 put2 S sigma c1 p1 c2 p2,
    profitability 100 1 0.05 10 6 (90, 110) (0.15, 0.25) = Ok (call1, put1)
    /\ profitability 100 1 0.05 0 0 (90, 110) (0.15, 0.25) = Ok (call2, put2)
    /\ stock_prices (90, 110) !! 49%nat = Some S
    /\ volatilities (0.15, 0.25) !! 0%nat = Some sigma
    /\ 0 < S /\ 0 < sigma
    /\ getitem call1 49 0 = Some c1 /\ getitem call2 49 0 = Some c2
    /\ getitem put1 49 0 = Some p1 /\ getitem put2 49 0 = Some p2
    /\ c1 - c2 = 0 - 10
    /\ p1 - p2 = 0 - 6.
Proof.
  apply (purchase_price_shifts_grid 100 1 0.05 10 6 0 0 (90, 110) (0.15, 0.25) 49 0);
    simpl; try lra; lia.
Defined.

(** ** The historical volatility *)

(** The logarithmic returns of consecutive closes. *)
Fixpoint log_returns (closes : list R) : list R :=
  match closes with
  | [] => []
  | x0 :: rest =>
      match rest with
      | [] => []
      | x1 :: _ => ln (x1 / x0) :: log_returns rest
      end
  end.

Example shift_three (a b c : R) :
  pd.shift [Some a; Some b; Some c] = [None; Some a; Some b].
Proof. reflexivity. Qed.

Example daily_returns_three (a b c : R) :
  daily_returns [Some a; Some b; Some c]
  = [None; Some (ln (b / a)); Some (ln (c / b))].
Proof. reflexivity. Qed.

Lemma zip_with_take_length {A B C : Type} (f : A -> B -> C) (l : list A) (k : list B) :
  zip_with f l (take (length l) k) = zip_with f l k.
Proof.
  revert k. induction l as [|a l IH]; intros [|b k]; simpl; try done.
  by rewrite IH.
Qed.

(** The rows after the first: each close over the one before. *)
Lemma returns_after_first (x0 : R) (xs : list R) :
  pd.dropna (pd.log (pd.div (Some <$> xs) (Some x0 :: (Some <$> xs))))
  = log_returns (x0 :: xs).
Proof.
  revert x0. induction xs as [|x1 xs IH]; intros x0; [done|].
  change (pd.dropna (pd.log (pd.div (Some <$> x1 :: xs) (Some x0 :: (Some <$> x1 :: xs)))))
    with (ln (x1 / x0)
          :: pd.dropna (pd.log (pd.div (Some <$> xs) (Some x1 :: (Some <$> xs))))).
  by rewrite IH.
Qed.

(** Without NaN among the closes, the returns that are not NaN are the
    logarithmic returns of consecutive closes. *)
Lemma dropna_daily_returns (closes : list R) :
  pd.dropna (daily_returns (Some <$> closes)) = log_returns closes.
Proof.
  destruct closes as [|x0 xs]; [done|].
  rewrite <- returns_after_first.
  unfold daily_returns, pd.shift. rewrite length_fmap.
  change (take (length (x0 :: xs)) (None :: (Some <$> x0 :: xs)))
    with (None :: take (length xs) (Some <$> x0 :: xs)).
  rewrite <- (length_fmap Some xs).
  change (pd.div (Some <$> x0 :: xs) (None :: take (length (Some <$> xs)) (Some <$> x0 :: xs)))
    with (None :: zip_with (fun x y : option R => x ← x; y ← y; Some (x / y))
                    (Some <$> xs) (take (length (Some <$> xs)) (Some <$> x0 :: xs))).
  rewrite zip_with_take_length. reflexivity.
Qed.

(** The volatility as a function of the logarithmic returns. *)
Lemma volatility_log_returns (closes : list R) :
  volatility (Some <$> closes)
  = sqrt (pd.mean (map (fun x => (x - pd.mean (log_returns closes)) ^ 2)
                       (log_returns closes)))
    * sqrt 252.
Proof. unfold volatility, pd.std. by rewrite dropna_daily_returns. Qed.

Lemma log_returns_scale (c : R) (closes : list R) :
  c <> 0 -> Forall (fun x => x <> 0) closes ->
  log_returns (map (Rmult c) closes) = log_returns closes.
Proof.
  intros Hc Hall. induction Hall as [|x0 rest Hx0 Hrest IH]; [done|].
  destruct rest as [|x1 rest']; [done|].
  change (ln (c * x1 / (c * x0)) :: log_returns (map (Rmult c) (x1 :: rest'))
          = ln (x1 / x0) :: log_returns (x1 :: rest')).
  rewrite IH. do 2 f_equal. field. done.
Qed.

(** X15. The historical volatility does not depend on the unit of the
    prices: multiplying every close by the same positive factor leaves
    it unchanged. *)
Theorem volatility_scale_invariant (c : R) (closes : list R) :
  0 < c -> Forall (fun x => 0 < x) closes ->
  volatility (Some <$> map (Rmult c) closes) = volatility (Some <$> closes).
Proof.
  intros Hc Hpos. rewrite !volatility_log_returns.
  rewrite log_returns_scale; [done|lra|].
  eapply Forall_impl; [exact Hpos|]. intros x Hx. simpl in Hx. lra.
Qed.

Lemma volatility_scale_invariant_witness :
  volatility (Some <$> map (Rmult 2) [100; 110; 99])
  = volatility (Some <$> [100; 110; 99]).
Proof.
  apply (volatility_scale_invariant 2 [100; 110; 99]); [lra|].
  repeat constructor; lra.
Defined.

Lemma log_returns_geometric (c0 q : R) (m : nat) : forall k,
  c0 <> 0 -> q <> 0 ->
  log_returns (map (fun i => c0 * q ^ i) (seq k (S m))) = replicate m (ln q).
Proof.
  induction m as [|m IH]; intros k Hc0 Hq; [done|].
  change (ln (c0 * q ^ S k / (c0 * q ^ k))
          :: log_returns (map (fun i => c0 * q ^ i) (seq (S k) (S m)))
          = ln q :: replicate m (ln q)).
  rewrite IH by done. do 2 f_equal.
  simpl. field. split; [by apply pow_nonzero|done].
Qed.

Lemma foldr_Rplus_replicate (m : nat) (v : R) :
  foldr Rplus 0 (replicate m v) = INR m * v.
Proof.
  induction m as [|m IH]; [simpl; lra|].
  rewrite S_INR. simpl replicate. simpl foldr. rewrite IH. ring.
Qed.

Lemma mean_replicate (m : nat) (v : R) :
  (0 < m)%nat -> pd.mean (replicate m v) = v.
Proof.
  intros Hm. unfold pd.mean. rewrite foldr_Rplus_replicate, length_replicate.
  field. apply not_0_INR. lia.
Qed.

(** X16. Closes that grow by a constant factor, in particular constant
    closes, have volatility zero (with at least two closes). *)
Theorem volatility_constant_growth (c0 q : R) (n : nat) :
  0 < c0 -> 0 < q -> (2 <= n)%nat ->
  volatility (Some <$> map (fun i => c0 * q ^ i) (seq 0 n)) = 0.
Proof.
  intros Hc0 Hq Hn. rewrite volatility_log_returns.
  destruct n as [|m]; [lia|].
  rewrite log_returns_geometric by lra.
  rewrite mean_replicate by lia.
  change (map ?f ?l) with (f <$> l).
  rewrite fmap_replicate.
  replace ((ln q - ln q) ^ 2) with 0 by ring.
  rewrite mean_replicate by lia.
  rewrite sqrt_0. ring.
Qed.

Lemma volatility_constant_growth_witness :
  volatility (Some <$> map (fun i => 100 * 1 ^ i) (seq 0 3)) = 0.
Proof. apply (volatility_constant_growth 100 1 3); [lra|lra|lia]. Defined.
